(** * auctiondeal_shared: a shallow embedding of the shared Python utilities

    The library has three leaf modules: [telemetry] (a structured logger),
    [validation] (format predicates and a schema-validation wrapper) and
    [db] (a database client with a lazily created engine handle).

    Python values, exceptions and the effects the code threads through its
    calls (the process environment, the object store, the log and the
    database driver) are modelled explicitly.  The external libraries
    ([re], [datetime], [sqlalchemy], [pydantic], [structlog]) are modelled
    at their interface: [re] by a backtracking matcher over the parsed
    pattern, the others as parameters of the development. *)

From Stdlib Require Import String Ascii List Bool ZArith Lia.
From stdpp Require Import base option gmap strings list.

Set Default Proof Using "Type".
Set Warnings "-register-all".
#[local] Arguments String.append !_ _ / : simpl nomatch.

(** ** Python values and exceptions *)

(** The fragment of Python's value universe the library is called with.
    A [str] is a sequence of characters; the model keeps the characters
    with code points below 256. *)
Inductive pyval : Type :=
| VNone
| VBool (b : bool)
| VInt (z : Z)
| VStr (s : string)
| VBytes (b : list Byte.byte)
| VDict (d : gmap string pyval).

Abbreviation pydict := (gmap string pyval).

(** [isinstance(v, str)] *)
Definition is_str (v : pyval) : bool :=
  match v with VStr _ => true | _ => false end.

(** The exception classes that occur.  All of them derive from
    [Exception]; [ValidationError] (pydantic) derives from [ValueError].
    What does not derive from [Exception] ([KeyboardInterrupt],
    [SystemExit]) is no failure of an operation and is not modelled. *)
Inductive exn_class : Type :=
| ValueError
| TypeError
| AttributeError
| ValidationError
| OtherError (name : string).

#[global] Instance exn_class_eq_dec : EqDecision exn_class.
Proof. solve_decision. Defined.

(** An exception instance: its class and [str(e)]. *)
Record exn : Type := Exn { exn_type : exn_class; exn_str : string }.

#[global] Instance exn_eq_dec : EqDecision exn.
Proof. solve_decision. Defined.

(** [issubclass(c, d)] on the classes above. *)
Definition issubclass (c d : exn_class) : bool :=
  match c, d with
  | ValidationError, ValueError => true
  | _, _ => bool_decide (c = d)
  end.

(** [isinstance(e, (d1, ..., dn))], the test of an [except] clause. *)
Definition isinstance (e : exn) (ds : list exn_class) : bool :=
  existsb (issubclass (exn_type e)) ds.

(** [except (d1, ..., dn)] and [except Exception]: every class of the
    model derives from [Exception]. *)
Definition except_ (ds : list exn_class) (e : exn) : bool := isinstance e ds.
Definition except_Exception (e : exn) : bool := true.

(** The result of evaluating an expression or running a block. *)
Inductive outcome (A : Type) : Type :=
| Return (a : A)
| Raise (e : exn).
Arguments Return {A} a.
Arguments Raise {A} e.

Definition and_then {A B} (o : outcome A) (f : A -> outcome B) : outcome B :=
  match o with Return a => f a | Raise e => Raise e end.

(** A [try]/[except] with one clause around effect-free code. *)
Definition try_pure {A} (body : outcome A) (accepts : exn -> bool) (handler : exn -> outcome A)
  : outcome A :=
  match body with
  | Return a => Return a
  | Raise e => if accepts e then handler e else Raise e
  end.

Definition returns {A} (o : outcome A) : bool :=
  match o with Return _ => true | Raise _ => false end.

Definition raises {A} (o : outcome A) (c : exn_class) : Prop :=
  match o with Return _ => False | Raise e => exn_type e = c end.

(** ** [str] methods *)

(** [s.replace(old, new)] for a one-character [old]: every occurrence is
    replaced. *)
Fixpoint str_replace (old : ascii) (new : string) (s : string) : string :=
  match s with
  | EmptyString => EmptyString
  | String c s' =>
      if bool_decide (c = old) then new +:+ str_replace old new s'
      else String c (str_replace old new s')
  end.

(** [v.replace(old, new)] with [str] arguments on any value: [str] has the
    method, [bytes] has it but wants bytes-like arguments, the other
    values have no such attribute. *)
Definition replace_method (v : pyval) (old : ascii) (new : string) : outcome string :=
  match v with
  | VStr s => Return (str_replace old new s)
  | VBytes _ => Raise (Exn TypeError "a bytes-like object is required, not 'str'")
  | _ => Raise (Exn AttributeError "object has no attribute 'replace'")
  end.

(** [sub in s] *)
Fixpoint contains (sub s : string) : bool :=
  String.prefix sub s ||
  match s with
  | EmptyString => false
  | String _ s' => contains sub s'
  end.

(** Truth value of an [Optional[str]]: [None] and [''] are false. *)
Definition truthy (s : option string) : bool :=
  match s with
  | Some s => negb (String.eqb s "")
  | None => false
  end.

(** ** The [re] module on the two patterns of [validation.py] *)

Module Re.

(** A parsed pattern, with the node names of [sre_parse].  The only
    repeated items in the library's patterns are character sets, so
    [MaxRepeat] carries a set. *)
Inductive set_item : Type :=
| SLiteral (c : ascii)
| SRange (lo hi : ascii).

Inductive node : Type :=
| AtBeginning                                   (* ^ *)
| AtEnd                                         (* $ *)
| Literal (c : ascii)
| In (cs : list set_item)                       (* [...] *)
| MaxRepeat (lo : nat) (hi : option nat) (cs : list set_item).  (* [...]{lo,hi}, + *)

Record Pattern : Type := Compile { nodes : list node; ignorecase : bool }.

(** A match object: the span of the match. *)
Record Match : Type := MkMatch { m_start : nat; m_end : nat }.

Definition code (c : ascii) : nat := nat_of_ascii c.

Definition between (lo hi c : ascii) : bool :=
  (code lo <=? code c)%nat && (code c <=? code hi)%nat.

Definition lower (c : ascii) : ascii :=
  if between "A" "Z" c then ascii_of_nat (code c + 32) else c.

Definition upper (c : ascii) : ascii :=
  if between "a" "z" c then ascii_of_nat (code c - 32) else c.

Definition item_has (c : ascii) (i : set_item) : bool :=
  match i with
  | SLiteral d => bool_decide (c = d)
  | SRange lo hi => between lo hi c
  end.

(** Set membership; under IGNORECASE the lowered character or its upper
    case must be in the set. *)
Definition in_set (ic : bool) (cs : list set_item) (c : ascii) : bool :=
  if ic then existsb (item_has (lower c)) cs || existsb (item_has (upper (lower c))) cs
  else existsb (item_has c) cs.

Definition same_char (ic : bool) (d c : ascii) : bool :=
  if ic then bool_decide (lower c = lower d) else bool_decide (c = d).

(** [$] without MULTILINE: at the end of the string, or just before a
    newline that is the last character. *)
Definition newline : ascii := "010"%char.

(** The one-character string holding a newline. *)
Definition nl : string := String newline EmptyString.

Definition at_end (s : string) : bool :=
  match s with
  | EmptyString => true
  | String c EmptyString => bool_decide (c = newline)
  | _ => false
  end.

Definition more (hi : option nat) : bool :=
  match hi with Some 0 => false | _ => true end.

Definition less (hi : option nat) : option nat :=
  match hi with Some n => Some (pred n) | None => None end.

(** A count that respects the upper bound of a repetition. *)
Definition within (hi : option nat) (n : nat) : Prop :=
  match hi with Some m => n ≤ m | None => True end.

Definition orelse {A} (a b : option A) : option A :=
  match a with Some _ => a | None => b end.

(** Greedy repetition of a one-character test with backtracking: take as
    many characters as allowed, then give them back one at a time until
    the continuation matches. *)
Fixpoint repeat_one (test : ascii -> bool) (k : nat -> string -> option nat)
    (lo : nat) (hi : option nat) (pos : nat) (s : string) : option nat :=
  let stop := if (lo =? 0)%nat then k pos s else None in
  match s with
  | String c s' =>
      if more hi && test c
      then orelse (repeat_one test k (pred lo) (less hi) (S pos) s') stop
      else stop
  | EmptyString => stop
  end.

(** The matcher: [run ic p pos s] matches the nodes [p] against the rest
    [s] of the subject at offset [pos] and gives the end offset. *)
Fixpoint run (ic : bool) (p : list node) (pos : nat) (s : string) : option nat :=
  match p with
  | [] => Some pos
  | AtBeginning :: p' => if (pos =? 0)%nat then run ic p' pos s else None
  | AtEnd :: p' => if at_end s then run ic p' pos s else None
  | Literal d :: p' =>
      match s with
      | String c s' => if same_char ic d c then run ic p' (S pos) s' else None
      | EmptyString => None
      end
  | In cs :: p' =>
      match s with
      | String c s' => if in_set ic cs c then run ic p' (S pos) s' else None
      | EmptyString => None
      end
  | MaxRepeat lo hi cs :: p' => repeat_one (in_set ic cs) (run ic p') lo hi pos s
  end.

(** [Pattern.match] on a [str] subject: anchored at offset 0. *)
Definition match_str (p : Pattern) (s : string) : option Match :=
  MkMatch 0 <$> run (ignorecase p) (nodes p) 0 s.

(** [Pattern.match(subject)] / [re.match(pattern, subject)] for a [str]
    pattern: a subject that is not a [str] is a [TypeError]. *)
Definition match_ (p : Pattern) (subject : pyval) : outcome (option Match) :=
  match subject with
  | VStr s => Return (match_str p s)
  | VBytes _ =>
      Raise (Exn TypeError "cannot use a string pattern on a bytes-like object")
  | _ => Raise (Exn TypeError "expected string or bytes-like object")
  end.

End Re.

(** [bool(m)] for the result of a match: [None] is false, a match object
    is true. *)
Definition bool_of_match (m : option Re.Match) : bool :=
  match m with Some _ => true | None => false end.

(** ** The process: environment, object store, log and database driver *)

(** The interface of the database driver ([sqlalchemy] over [psycopg]):
    its handle types, the state of the world behind it, and its
    operations, each of which may fail and may change that world. *)
Record Driver : Type := {
  Engine : Type;
  Connection : Type;
  CursorResult : Type;
  World : Type;
  (** [create_engine(url)] *)
  create_engine : string -> World -> outcome Engine * World;
  (** [engine.connect()] *)
  connect : Engine -> World -> outcome Connection * World;
  (** [conn.execute(text(sql))] and [conn.execute(text(sql), params)] *)
  execute : Connection -> string -> option pydict -> World -> outcome CursorResult * World;
  (** [conn.commit()] *)
  commit : Connection -> World -> outcome unit * World;
  (** [conn.__exit__(...)]: closes the connection, suppresses nothing *)
  close : Connection -> World -> outcome unit * World
}.

Inductive level : Type := DEBUG | INFO | WARNING | ERROR.

#[global] Instance level_eq_dec : EqDecision level.
Proof. solve_decision. Defined.

(** A call of the logger: severity, message and keyword fields. *)
Record log_record : Type :=
  LogRecord { log_level : level; log_event : string; log_fields : list (string * pyval) }.

Abbreviation loc := nat.

Section Process.
Context {D : Driver}.

(** What the process does to the outside, in order: logger calls and
    driver calls with their outcome. *)
Inductive event : Type :=
| Log (r : log_record)
| CreateEngine (url : string) (r : outcome (Engine D))
| Connect (e : Engine D) (r : outcome (Connection D))
| Execute (c : Connection D) (sql : string) (params : option pydict)
    (r : outcome (CursorResult D))
| Commit (c : Connection D) (r : outcome unit)
| Close (c : Connection D) (r : outcome unit).

(** A [DatabaseClient] instance: its two attributes. *)
Record client : Type :=
  Client { connection_string : string; _engine : option (Engine D) }.

Record state : Type := State {
  environ : gmap string string;      (* os.environ *)
  heap : gmap loc client;            (* the DatabaseClient objects *)
  db : World D;                      (* the world behind the driver *)
  trace : list event
}.

Definition set_heap (h : gmap loc client) (st : state) : state :=
  State (environ st) h (db st) (trace st).

Definition emit (ev : event) (w : World D) (st : state) : state :=
  State (environ st) (heap st) w (trace st ++ [ev]).

(** Computations: state passing with exceptions. *)
Definition M (A : Type) : Type := state -> outcome A * state.

Definition ret {A} (a : A) : M A := fun st => (Return a, st).

Definition throw {A} (e : exn) : M A := fun st => (Raise e, st).

Definition bind {A B} (m : M A) (f : A -> M B) : M B :=
  fun st =>
    match m st with
    | (Return a, st') => f a st'
    | (Raise e, st') => (Raise e, st')
    end.

(** [try: body / except ... as e: handler / except ... as e: handler]:
    the first clause whose test accepts the exception handles it; an
    exception no clause accepts, or one raised by a handler, propagates. *)
Fixpoint dispatch {A} (clauses : list ((exn -> bool) * (exn -> M A))) (e : exn) : M A :=
  match clauses with
  | [] => throw e
  | (accepts, handler) :: rest => if accepts e then handler e else dispatch rest e
  end.

Definition try_ {A} (body : M A) (clauses : list ((exn -> bool) * (exn -> M A))) : M A :=
  fun st =>
    match body st with
    | (Return a, st') => (Return a, st')
    | (Raise e, st') => dispatch clauses e st'
    end.

(** [with enter as x: body]: the manager's exit runs on every way out of
    the body; it suppresses nothing, and if it raises itself, that
    exception is the one that propagates. *)
Definition with_ {C A} (enter : M C) (exit : C -> M unit) (body : C -> M A) : M A :=
  fun st =>
    match enter st with
    | (Raise e, st1) => (Raise e, st1)
    | (Return c, st1) =>
        let (r, st2) := body c st1 in
        match exit c st2 with
        | (Return _, st3) => (r, st3)
        | (Raise e', st3) => (Raise e', st3)
        end
    end.

(** A driver call on the current world, recorded in the trace. *)
Definition call {A} (f : World D -> outcome A * World D) (ev : outcome A -> event) : M A :=
  fun st => let (r, w) := f (db st) in (r, emit (ev r) w st).

(** [os.getenv(name)] *)
Definition getenv (name : string) : M (option string) :=
  fun st => (Return (environ st !! name), st).

(** Attribute access on [self]; an object that is no client has no such
    attributes. *)
Definition load (self : loc) : M client :=
  fun st =>
    match heap st !! self with
    | Some c => (Return c, st)
    | None => (Raise (Exn AttributeError "object has no such attribute"), st)
    end.

Definition store (self : loc) (c : client) : M unit :=
  fun st => (Return tt, set_heap (<[self := c]> (heap st)) st).

(** Object creation: a location no object lives at. *)
Definition fresh_loc : M loc :=
  fun st => (Return (fresh (dom (heap st))), st).

End Process.

Arguments event : clear implicits.
Arguments client : clear implicits.
Arguments state : clear implicits.
Arguments M : clear implicits.

(** Readings of a trace. *)

Section Traces.
Context {D : Driver}.

(** The exception of a driver call that failed. *)
Definition failure (ev : event D) : option exn :=
  match ev with
  | CreateEngine _ (Raise e) | Connect _ (Raise e) | Execute _ _ _ (Raise e)
  | Commit _ (Raise e) | Close _ (Raise e) => Some e
  | _ => None
  end.

Definition failures (evs : list (event D)) : list exn := omap failure evs.

Definition error_record (msg : string) (kw : list (string * pyval)) : event D :=
  Log (LogRecord ERROR msg kw).

Definition logged (ev : event D) : option log_record :=
  match ev with Log r => Some r | _ => None end.

(** The statements sent to the database. *)
Definition executed (ev : event D) : option string :=
  match ev with Execute _ sql _ _ => Some sql | _ => None end.

(** Every statement that succeeded is followed at once by a commit on
    the same connection. *)
Fixpoint committed (evs : list (event D)) : Prop :=
  match evs with
  | [] => True
  | Execute c _ _ (Return _) :: rest =>
      match rest with
      | Commit c' _ :: _ => c = c' ∧ committed rest
      | _ => False
      end
  | _ :: rest => committed rest
  end.

(** The engine handles that were made, and the ones connections were
    asked of. *)
Definition created (ev : event D) : option (Engine D) :=
  match ev with CreateEngine _ (Return h) => Some h | _ => None end.

Definition connected (ev : event D) : option (Engine D) :=
  match ev with Connect h _ => Some h | _ => None end.

(** [params] as a keyword field of a log record. *)
Definition params_field (params : option pydict) : pyval :=
  match params with Some d => VDict d | None => VNone end.

End Traces.

Declare Scope py_scope.
Delimit Scope py_scope with py.
Notation "x <- m ;; k" := (bind m (fun x => k))
  (at level 100, m at next level, right associativity) : py_scope.
Notation "m ;;; k" := (bind m (fun _ => k))
  (at level 100, right associativity) : py_scope.
Local Open Scope py_scope.

(** ** telemetry.py: the module-level logger *)

Module logger.
Section Logger.
Context {D : Driver}.

Definition log (lvl : level) (msg : string) (kw : list (string * pyval)) : M D unit :=
  fun st => (Return tt, emit (Log (LogRecord lvl msg kw)) (db st) st).

Definition debug := log DEBUG.
Definition info := log INFO.
Definition warning := log WARNING.
Definition error := log ERROR.

End Logger.
End logger.

(** ** validation.py: the format predicates *)

Module ValidationUtils.

Import Re.

Definition hex_set : list set_item := [SRange "0" "9"; SRange "a" "f"].

(** [re.compile(r'^[0-9a-f]{8}-[0-9a-f]{4}-[1-5][0-9a-f]{3}-[89ab][0-9a-f]{3}-[0-9a-f]{12}$',
    re.IGNORECASE)] *)
Definition UUID_PATTERN : Pattern :=
  Compile
    [ AtBeginning;
      MaxRepeat 8 (Some 8) hex_set; Literal "-";
      MaxRepeat 4 (Some 4) hex_set; Literal "-";
      In [SRange "1" "5"]; MaxRepeat 3 (Some 3) hex_set; Literal "-";
      In [SLiteral "8"; SLiteral "9"; SLiteral "a"; SLiteral "b"];
      MaxRepeat 3 (Some 3) hex_set; Literal "-";
      MaxRepeat 12 (Some 12) hex_set;
      AtEnd ]
    true.

(** [r'^[a-zA-Z0-9._%+-]+@[a-zA-Z0-9.-]+\.[a-zA-Z]{2,}$'], compiled
    without flags. *)
Definition EMAIL_PATTERN : Pattern :=
  Compile
    [ AtBeginning;
      MaxRepeat 1 None
        [SRange "a" "z"; SRange "A" "Z"; SRange "0" "9"; SLiteral ".";
         SLiteral "_"; SLiteral "%"; SLiteral "+"; SLiteral "-"];
      Literal "@";
      MaxRepeat 1 None
        [SRange "a" "z"; SRange "A" "Z"; SRange "0" "9"; SLiteral "."; SLiteral "-"];
      Literal ".";
      MaxRepeat 2 None [SRange "a" "z"; SRange "A" "Z"];
      AtEnd ]
    false.

(** [return bool(cls.UUID_PATTERN.match(value))] *)
Definition is_valid_uuid (value : pyval) : outcome bool :=
  match match_ UUID_PATTERN value with
  | Return m => Return (bool_of_match m)
  | Raise e => Raise e
  end.

(** [return bool(re.match(pattern, email))] *)
Definition is_valid_email (email : pyval) : outcome bool :=
  match match_ EMAIL_PATTERN email with
  | Return m => Return (bool_of_match m)
  | Raise e => Raise e
  end.

Section Date.
(** [datetime.fromisoformat], the parser of the standard library. *)
Context {datetime : Type} (fromisoformat : string -> outcome datetime).

(** [try: datetime.fromisoformat(date_string.replace('Z', '+00:00')); return True
     except (ValueError, TypeError): return False] *)
Definition is_valid_date_string (date_string : pyval) : outcome bool :=
  try_pure
    (and_then (replace_method date_string "Z" "+00:00") (fun s =>
     and_then (fromisoformat s) (fun _ =>
     Return true)))
    (except_ [ValueError; TypeError])
    (fun _ => Return false).

End Date.

Section Model.
Context {D : Driver} {Instance_ : Type}.
(** The schema class: called with the entries of [data] as keyword
    arguments, it builds an instance or raises. *)
Context (model_class : pydict -> M D Instance_).

Definition validate_model (data : pydict)
  : M D (bool * option Instance_ * option string) :=
  try_
    (model_instance <- model_class data ;;
     ret (true, Some model_instance, None))
    [ (except_ [ValidationError], fun e =>
         let error_msg := "Validation failed: " +:+ exn_str e in
         logger.warning "Model validation failed"
           [("error", VStr error_msg); ("data", VDict data)] ;;;
         ret (false, None, Some error_msg));
      (except_Exception, fun e =>
         let error_msg := "Unexpected validation error: " +:+ exn_str e in
         logger.error "Unexpected validation error"
           [("error", VStr error_msg); ("data", VDict data)] ;;;
         ret (false, None, Some error_msg)) ].

End Model.

End ValidationUtils.


(** ** db.py

    One caller at a time: the methods run to completion once started.
    Threads that read the [engine] property of one client at once are
    modelled further down. *)

Module DatabaseClient.
Section Methods.
Context {D : Driver}.

(** [a or b] on [Optional[str]]: [b] is evaluated only when [a] is false. *)
Definition or_ (a : option string) (b : M D (option string)) : M D (option string) :=
  if truthy a then ret a else b.

(** [params or {}] *)
Definition or_empty (params : option pydict) : pydict :=
  match params with
  | Some d => if decide (d = ∅) then ∅ else d
  | None => ∅
  end.

Definition not_set : exn := Exn ValueError "DATABASE_URL environment variable not set".

(** [__init__(self, connection_string=None)].  The two attributes are
    written to the store together: when the check raises, the
    half-built object is unreachable. *)
Definition __init__ (self : loc) (connection_string : option string) : M D unit :=
  cs <- or_ connection_string (getenv "DATABASE_URL") ;;
  match cs with
  | Some s => if String.eqb s "" then throw not_set else store self (Client s None)
  | None => throw not_set
  end.

(** [DatabaseClient(connection_string)]: a new object, initialised. *)
Definition new (connection_string : option string) : M D loc :=
  self <- fresh_loc ;;
  __init__ self connection_string ;;;
  ret self.

(** The [engine] property. *)
Definition engine (self : loc) : M D (Engine D) :=
  c <- load self ;;
  match _engine c with
  | None =>
      e <- call (create_engine D (connection_string c)) (CreateEngine (connection_string c)) ;;
      store self (Client (connection_string c) (Some e)) ;;;
      ret e
  | Some e => ret e
  end.

(** [self.engine.connect()] as a context manager. *)
Definition connection (self : loc) : M D (Connection D) :=
  e <- engine self ;;
  call (connect D e) (Connect e).

Definition exit_ (conn : Connection D) : M D unit :=
  call (close D conn) (Close conn).

(** [execute_query(self, query, params=None)].  The coroutine has no
    suspension point: awaiting it runs this body. *)
Definition execute_query (self : loc) (query : string) (params : option pydict)
  : M D (CursorResult D) :=
  try_
    (with_ (connection self) exit_ (fun conn =>
       result <- call (execute D conn query (Some (or_empty params)))
                      (Execute conn query (Some (or_empty params))) ;;
       call (commit D conn) (Commit conn) ;;;
       ret result))
    [ (except_Exception, fun e =>
         logger.error ("Database query failed: " +:+ exn_str e)
           [("query", VStr query); ("params", params_field params)] ;;;
         throw e) ].

(** [health_check(self)], a coroutine without a suspension point as
    well. *)
Definition health_check (self : loc) : M D bool :=
  try_
    (with_ (connection self) exit_ (fun conn =>
       call (execute D conn "SELECT 1" None) (Execute conn "SELECT 1" None) ;;;
       ret tt) ;;;
     ret true)
    [ (except_Exception, fun e =>
         logger.error ("Database health check failed: " +:+ exn_str e) [] ;;;
         ret false) ].

End Methods.
End DatabaseClient.

Module DatabaseUtils.
Section Methods.
Context {D : Driver}.

Definition get_connection_string : M D string :=
  cs <- getenv "DATABASE_URL" ;;
  match cs with
  | Some s => if String.eqb s "" then throw DatabaseClient.not_set else ret s
  | None => throw DatabaseClient.not_set
  end.

Definition test_connection (connection_string : string) : M D bool :=
  try_
    (client <- DatabaseClient.new (Some connection_string) ;;
     DatabaseClient.health_check client)
    [ (except_Exception, fun _ => ret false) ].

End Methods.
End DatabaseUtils.

(** ** A caller of one client *)

(** What a caller can do with a client: read the [engine] property, run
    a query, probe the connection.  The caller goes on whatever the
    outcome, so only the state after the operation matters. *)
Inductive operation : Type :=
| Access
| Query (query : string) (params : option pydict)
| Probe.

Section Caller.
Context {D : Driver}.

Definition step (self : loc) (st : state D) (o : operation) : state D :=
  match o with
  | Access => (DatabaseClient.engine self st).2
  | Query query params => (DatabaseClient.execute_query self query params st).2
  | Probe => (DatabaseClient.health_check self st).2
  end.

Definition steps (self : loc) (ops : list operation) (st : state D) : state D :=
  fold_left (step self) ops st.


End Caller.

(** ** Several callers of the [engine] property at once

    Between threads the property is not one step.  It reads
    [self._engine] and tests it, calls [create_engine], assigns
    [self._engine], and reads [self._engine] again to return it; another
    thread may run between any two of these. *)

Section Interleaving.
Context {D : Driver}.

(** Where one access of the property stands. *)
Inductive access : Type :=
| AtTest                                         (* if self._engine is None: *)
| AtCreate                                       (* create_engine(self.connection_string) *)
| AtStore (e : Engine D)                         (* self._engine = ... *)
| AtReturn                                       (* return self._engine *)
| Finished (r : outcome (option (Engine D))).

(** One step of one access. *)
Definition access_step (self : loc) (pc : access) (st : state D) : access * state D :=
  match pc with
  | Finished r => (Finished r, st)
  | _ =>
      match load self st with
      | (Raise e, _) => (Finished (Raise e), st)
      | (Return c, _) =>
          match pc with
          | AtTest =>
              (match _engine c with None => AtCreate | Some _ => AtReturn end, st)
          | AtCreate =>
              match call (create_engine D (connection_string c))
                         (CreateEngine (connection_string c)) st with
              | (Return e, st') => (AtStore e, st')
              | (Raise x, st') => (Finished (Raise x), st')
              end
          | AtStore e =>
              (AtReturn, (store self (Client (connection_string c) (Some e)) st).2)
          | AtReturn => (Finished (Return (_engine c)), st)
          | Finished r => (Finished r, st)
          end
      end
  end.

(** The accesses in progress, one per thread, and a schedule: the thread
    to run at each step. *)
Definition schedule_step (self : loc) (cfg : list access * state D) (i : nat)
  : list access * state D :=
  match cfg.1 !! i with
  | Some pc =>
      let (pc', st') := access_step self pc cfg.2 in (<[i := pc']> cfg.1, st')
  | None => cfg
  end.

Definition interleave (self : loc) (schedule : list nat) (cfg : list access * state D)
  : list access * state D :=
  fold_left (schedule_step self) schedule cfg.

(** What the property itself returns, as an access reports it. *)
Definition reported (r : outcome (Engine D)) : outcome (option (Engine D)) :=
  match r with Return h => Return (Some h) | Raise e => Raise e end.

End Interleaving.

(** ** The grammars the format predicates are meant to decide *)

Module Grammar.

Definition chars (s : string) : list ascii := list_ascii_of_string s.

Definition digit (c : ascii) : bool := Re.between "0" "9" c.
Definition letter (c : ascii) : bool := Re.between "a" "z" c || Re.between "A" "Z" c.

(** A hexadecimal digit, in either case. *)
Definition hex_digit (c : ascii) : bool :=
  digit c || Re.between "a" "f" c || Re.between "A" "F" c.

Definition hex_group (n : nat) (g : string) : Prop :=
  String.length g = n ∧ forallb hex_digit (chars g) = true.

(** The first character of a group is one of [allowed]. *)
Definition nibble (allowed : string) (g : string) : Prop :=
  ∃ c g', g = String c g' ∧ c ∈ chars allowed.

(** The canonical textual form of a UUID: five groups of hexadecimal
    digits of lengths 8, 4, 4, 4 and 12, separated by hyphens; the
    version nibble (the first of the third group) is 1 to 5, the variant
    nibble (the first of the fourth group) is 8, 9, a or b; letters in
    either case. *)
Definition canonical_uuid (s : string) : Prop :=
  ∃ g1 g2 g3 g4 g5,
    s = g1 +:+ "-" +:+ g2 +:+ "-" +:+ g3 +:+ "-" +:+ g4 +:+ "-" +:+ g5 ∧
    hex_group 8 g1 ∧ hex_group 4 g2 ∧ hex_group 4 g3 ∧ hex_group 4 g4 ∧
    hex_group 12 g5 ∧
    nibble "12345" g3 ∧ nibble "89abAB" g4.

Definition local_char (c : ascii) : bool :=
  letter c || digit c || bool_decide (c ∈ chars "._%+-").

Definition domain_char (c : ascii) : bool :=
  letter c || digit c || bool_decide (c ∈ chars ".-").

(** The permissive address grammar: a non-empty local part of allowed
    characters, one [@], a domain of allowed characters that ends in a
    dot and a top-level segment of two or more letters. *)
Definition email_address (s : string) : Prop :=
  ∃ local domain tld,
    s = local +:+ "@" +:+ domain +:+ "." +:+ tld ∧
    (1 ≤ String.length local)%nat ∧ forallb local_char (chars local) = true ∧
    (1 ≤ String.length domain)%nat ∧ forallb domain_char (chars domain) = true ∧
    (2 ≤ String.length tld)%nat ∧ forallb letter (chars tld) = true.

(** A single-line value holds no newline. *)
Definition single_line (s : string) : Prop := Re.newline ∉ chars s.

End Grammar.

(** ** telemetry.py: [TelemetryUtils.log_error] *)

Module TelemetryUtils.
Section Wrappers.
Context {D : Driver}.
(** [logger.error(event, **kw)] as the process has it configured: the
    binding of the arguments and the whole chain of processors.  It may
    write, drop the event or raise, depending on the keywords. *)
Context (logger_error : string → list (string * pyval) → M D unit).

(** [type(error).__name__] *)
Definition class_name (c : exn_class) : string :=
  match c with
  | ValueError => "ValueError"
  | TypeError => "TypeError"
  | AttributeError => "AttributeError"
  | ValidationError => "ValidationError"
  | OtherError name => name
  end.

Definition has_key (mapping : pydict) (k : string) : bool :=
  bool_decide (is_Some (mapping !! k)).

(** The keyword arguments of a call [f(k1=v1, ..., kn=vn, **mapping)]: a
    key of [mapping] that repeats an explicit keyword is a [TypeError],
    raised where the call is made, before [f] is entered.  (When several
    keys collide Python names the first of the mapping; the first of the
    keyword list is named here.) *)
Definition call_keywords (explicit : list (string * pyval)) (mapping : pydict)
  : outcome (list (string * pyval)) :=
  match find (has_key mapping) explicit.*1 with
  | Some k =>
      Raise (Exn TypeError ("got multiple values for keyword argument '" +:+ k +:+ "'"))
  | None => Return (explicit ++ map_to_list mapping)
  end.

(** [logger.error("Error occurred", error=str(error),
      error_type=type(error).__name__, **(context or {}))] *)
Definition log_error (error : exn) (context : option pydict) : M D unit :=
  fun st =>
    match call_keywords
            [("error", VStr (exn_str error));
             ("error_type", VStr (class_name (exn_type error)))]
            (DatabaseClient.or_empty context) with
    | Return kw => logger_error "Error occurred" kw st
    | Raise e => (Raise e, st)
    end.

End Wrappers.
End TelemetryUtils.

(** ** Callers of the whole database interface *)

Inductive api_call : Type :=
| Construct (connection_string : option string)
| Method (self : loc) (o : operation)
| TestConnection (connection_string : string)
| GetConnectionString.

Section Api.
Context {D : Driver}.

Definition api_step (st : state D) (a : api_call) : state D :=
  match a with
  | Construct connection_string => (DatabaseClient.new connection_string st).2
  | Method self o => step self st o
  | TestConnection connection_string =>
      (DatabaseUtils.test_connection connection_string st).2
  | GetConnectionString => (DatabaseUtils.get_connection_string st).2
  end.

Definition api_run (calls : list api_call) (st : state D) : state D :=
  fold_left api_step calls st.

(** The client a call is a method of. *)
Definition method_of (a : api_call) : option loc :=
  match a with Method self _ => Some self | _ => None end.

(** Every client of the store holds a non-empty connection string. *)
Definition clients_configured (st : state D) : Prop :=
  map_Forall (λ _ c, connection_string c ≠ "") (heap st).

(** No engine was asked for an empty URL. *)
Definition no_empty_url (ev : event D) : Prop :=
  match ev with CreateEngine url _ => url ≠ "" | _ => True end.

(** More readings of a trace: the connections that were opened, the ones
    whose exit was called (whether or not the close went well), the ones
    a statement succeeded on, the ones a commit was sent on, and the
    statements with their parameters. *)
Definition opened (ev : event D) : option (Connection D) :=
  match ev with Connect _ (Return c) => Some c | _ => None end.

Definition exit_called (ev : event D) : option (Connection D) :=
  match ev with Close c _ => Some c | _ => None end.

Definition statement_ok (ev : event D) : option (Connection D) :=
  match ev with Execute c _ _ (Return _) => Some c | _ => None end.

Definition commit_on (ev : event D) : option (Connection D) :=
  match ev with Commit c _ => Some c | _ => None end.

Definition sent (ev : event D) : option (string * option pydict) :=
  match ev with Execute _ sql params _ => Some (sql, params) | _ => None end.

(** A trace without its log records. *)
Definition driver_call (ev : event D) : option (event D) :=
  match ev with Log _ => None | _ => Some ev end.

End Api.

(** ** Case of the subject *)

Fixpoint map_chars (f : ascii → ascii) (s : string) : string :=
  match s with
  | EmptyString => EmptyString
  | String c s' => String (f c) (map_chars f s')
  end.

(** [isinstance(v, bytes)] *)
Definition is_bytes (v : pyval) : bool :=
  match v with VBytes _ => true | _ => false end.

(** ** Samples and test doubles *)

Definition sample_uuid : string := "550e8400-e29b-41d4-a716-446655440000".
Definition sample_email : string := "a@b.co".

(** A scripted driver: the world is the list of outcomes still to come,
    one per driver call ([true]: the call succeeds); past the end of the
    script every call succeeds.  Engines are named by their URL,
    connections by a number, results by the statement text. *)
Module Scripted.

Definition refused : exn := Exn (OtherError "OperationalError") "connection refused".

Definition next {A} (a : A) (w : list bool) : outcome A * list bool :=
  match w with
  | false :: w' => (Raise refused, w')
  | true :: w' => (Return a, w')
  | [] => (Return a, [])
  end.

Definition driver : Driver := {|
  Engine := string;
  Connection := nat;
  CursorResult := string;
  World := list bool;
  create_engine url := next url;
  connect e := next 7;
  execute c sql params := next sql;
  commit c := next tt;
  close c := next tt
|}.

(** A process with the given environment and script and no objects. *)
Definition process (env : gmap string string) (script : list bool) : state driver :=
  State (D := driver) env ∅ script [].

(** The same with one client at location 0. *)
Definition with_client (c : client driver) (script : list bool) : state driver :=
  State (D := driver) ∅ {[ 0 := c ]} script [].

(** A client as [__init__] leaves it. *)
Definition sample_client : client driver :=
  Client "postgresql://localhost/app" None.

(** A caller's run: probe, read the property, query, probe again. *)
Definition sample_run : list operation :=
  [Probe; Access; Query "SELECT id FROM lots" None; Probe].

(** A use of the whole interface that leaves the client at 0 alone. *)
Definition sample_calls : list api_call :=
  [Construct (Some "postgresql://other/app"); Method 1 Probe;
   TestConnection "postgresql://third/app"; GetConnectionString;
   Method 1 (Query "DELETE FROM bids" None); TestConnection ""].

End Scripted.

(** A driver that never fails and makes a new engine, numbered from the
    world's counter, at every call of [create_engine]. *)
Module Counting.

Definition driver : Driver := {|
  Engine := nat;
  Connection := nat;
  CursorResult := string;
  World := nat;
  create_engine url w := (Return w, S w);
  connect e w := (Return e, w);
  execute c sql params w := (Return sql, w);
  commit c w := (Return tt, w);
  close c w := (Return tt, w)
|}.






End Counting.

(** A schema with one required string field [name]. *)
Module Person.

Definition model_class {D : Driver} (data : pydict) : M D string :=
  match data !! "name" with
  | Some (VStr s) => ret s
  | Some _ => throw (Exn ValidationError "1 validation error for Person: name: str type expected")
  | None => throw (Exn ValidationError "1 validation error for Person: name: field required")
  end.

End Person.

(** A parser that knows one text. *)
Module Iso.

Definition fromisoformat (s : string) : outcome unit :=
  if String.eqb s "2024-01-01T00:00:00+00:00" then Return tt
  else Raise (Exn ValueError ("Invalid isoformat string: '" +:+ s +:+ "'")).

End Iso.

(** * Properties *)

(** ** The matcher *)

Section MatcherFacts.
Import Re.

Lemma orelse_Some {A} (a b : option A) : is_Some (orelse a b) ↔ is_Some a ∨ is_Some b.
Proof.
  destruct a as [x|]; simpl; split;
    [eauto | eauto | intros H; right; exact H | intros [[? [=]]|H]; exact H].
Qed.

(** A bounded greedy repetition matches exactly when the subject splits
    into a run of accepted characters of an allowed length and a rest the
    continuation matches: backtracking finds every such split. *)
Lemma repeat_one_Some test k lo hi pos s :
  is_Some (repeat_one test k lo hi pos s) ↔
  ∃ g rest, s = g +:+ rest ∧ lo ≤ String.length g ∧ within hi (String.length g) ∧
            forallb test (list_ascii_of_string g) = true ∧
            is_Some (k (pos + String.length g) rest).
Proof.
  revert lo hi pos. induction s as [|c s IH]; intros lo hi pos.
  - simpl. split.
    + destruct (Nat.eqb_spec lo 0) as [->|]; [|by intros [? [=]]].
      intros H. exists "", "". rewrite Nat.add_0_r. simpl.
      repeat split; auto. destruct hi; simpl; lia.
    + intros (g & rest & Hs & Hlo & _ & _ & Hk).
      destruct g; [|discriminate]. simpl in *. subst rest.
      rewrite Nat.add_0_r in Hk.
      destruct (Nat.eqb_spec lo 0); [done | lia].
  - cbn [repeat_one].
    assert (Hstop : is_Some (if (lo =? 0)%nat then k pos (String c s) else None) ↔
                    lo = 0 ∧ is_Some (k pos (String c s))).
    { destruct (Nat.eqb_spec lo 0); split; try tauto. by intros [? [=]]. }
    split.
    + intros H.
      assert (Hcases : (more hi = true ∧ test c = true ∧
                        is_Some (repeat_one test k (pred lo) (less hi) (S pos) s)) ∨
                       (lo = 0 ∧ is_Some (k pos (String c s)))).
      { destruct (more hi) eqn:Hm, (test c) eqn:Ht; simpl in H;
          try (right; by apply Hstop).
        apply orelse_Some in H as [H|H]; [left; auto | right; by apply Hstop]. }
      destruct Hcases as [(Hm & Ht & Hrec)|[-> Hk]].
      * apply IH in Hrec as (g & rest & -> & Hlo & Hhi & Hall & Hk).
        exists (String c g), rest. simpl. rewrite Ht. simpl.
        replace (pos + S (String.length g)) with (S pos + String.length g) by lia.
        repeat split; auto; [lia|].
        destruct hi as [[|n]|]; simpl in *; try done. lia.
      * exists "", (String c s). rewrite Nat.add_0_r. simpl.
        repeat split; auto. destruct hi; simpl; lia.
    + intros (g & rest & Hs & Hlo & Hhi & Hall & Hk).
      destruct g as [|c' g].
      * simpl in *. subst rest. rewrite Nat.add_0_r in Hk.
        assert (lo = 0) as -> by lia.
        destruct (more hi && test c); [apply orelse_Some; right|]; by apply Hstop.
      * simpl in Hs. injection Hs as <- ->. simpl in Hall, Hlo, Hhi, Hk.
        apply andb_prop in Hall as [Ht Hall]. rewrite Ht.
        assert (more hi = true) as -> by (destruct hi as [[|n]|]; simpl in *; auto; lia).
        simpl. apply orelse_Some. left. apply IH.
        exists g, rest. repeat split; auto; [lia| |].
        -- destruct hi as [n|]; simpl in *; auto. lia.
        -- by replace (S pos + String.length g) with (pos + S (String.length g)) by lia.
Qed.

Lemma run_AtBeginning ic p s :
  is_Some (run ic (AtBeginning :: p) 0 s) ↔ is_Some (run ic p 0 s).
Proof. done. Qed.

Lemma run_AtEnd ic pos s : is_Some (run ic [AtEnd] pos s) ↔ at_end s = true.
Proof.
  simpl. destruct (at_end s); split; eauto; try done.
Qed.

Lemma run_Literal ic d p pos s :
  is_Some (run ic (Literal d :: p) pos s) ↔
  ∃ c s', s = String c s' ∧ same_char ic d c = true ∧ is_Some (run ic p (S pos) s').
Proof.
  simpl. split.
  - destruct s as [|c s']; [by intros [? [=]]|].
    destruct (same_char ic d c) eqn:Hc; [eauto | by intros [? [=]]].
  - intros (c & s' & -> & -> & H). done.
Qed.

Lemma run_In ic cs p pos s :
  is_Some (run ic (In cs :: p) pos s) ↔
  ∃ c s', s = String c s' ∧ in_set ic cs c = true ∧ is_Some (run ic p (S pos) s').
Proof.
  simpl. split.
  - destruct s as [|c s']; [by intros [? [=]]|].
    destruct (in_set ic cs c) eqn:Hc; [eauto | by intros [? [=]]].
  - intros (c & s' & -> & -> & H). done.
Qed.

Lemma run_MaxRepeat ic lo hi cs p pos s :
  is_Some (run ic (MaxRepeat lo hi cs :: p) pos s) ↔
  ∃ g rest, s = g +:+ rest ∧ lo ≤ String.length g ∧ within hi (String.length g) ∧
            forallb (in_set ic cs) (list_ascii_of_string g) = true ∧
            is_Some (run ic p (pos + String.length g) rest).
Proof. apply repeat_one_Some. Qed.

Lemma at_end_iff s : at_end s = true ↔ s = "" ∨ s = String newline "".
Proof.
  destruct s as [|c [|d s]]; simpl; split; try (intros [?|?]); try done; auto.
  - intros ->%bool_decide_eq_true. auto.
  - by apply bool_decide_eq_true; congruence.
Qed.

Lemma match_str_Some p s :
  bool_of_match (match_str p s) = true ↔ is_Some (run (ignorecase p) (nodes p) 0 s).
Proof.
  unfold match_str. destruct (run _ _ _ _); simpl; split; eauto; try done.
Qed.

End MatcherFacts.

(** ** Strings *)

Lemma app_assoc_str (a b c : string) : (a +:+ b) +:+ c = a +:+ (b +:+ c).
Proof. induction a as [|x a IH]; simpl; [done | by rewrite IH]. Qed.

Lemma app_nil_r_str (a : string) : a +:+ "" = a.
Proof. induction a as [|x a IH]; simpl; [done | by rewrite IH]. Qed.

Lemma length_app_str (a b : string) :
  String.length (a +:+ b) = String.length a + String.length b.
Proof. induction a as [|x a IH]; simpl; [done | by rewrite IH]. Qed.

Lemma chars_app (a b : string) :
  Grammar.chars (a +:+ b) = Grammar.chars a ++ Grammar.chars b.
Proof. induction a as [|x a IH]; simpl; [done | by rewrite IH]. Qed.

Lemma forallb_eq {A} (f g : A → bool) (l : list A) :
  (∀ x, f x = g x) → forallb f l = forallb g l.
Proof. intros E. induction l as [|x l IH]; simpl; [done | by rewrite E, IH]. Qed.


(** ** The languages of the two patterns *)

Section Languages.
Import Re Grammar ValidationUtils.

(** A fact about one character, by running through the 256 of them. *)
Ltac by_cases c := destruct c as [[] [] [] [] [] [] [] []]; vm_compute; try done.

Lemma hex_set_ignorecase c : in_set true hex_set c = hex_digit c.
Proof. by_cases c. Qed.

Lemma hyphen_ignorecase c : same_char true "-" c = true ↔ c = "-"%char.
Proof. by_cases c. Qed.

Lemma version_set c :
  in_set true [SRange "1" "5"] c = bool_decide (c ∈ chars "12345").
Proof. by_cases c. Qed.

Lemma variant_set c :
  in_set true [SLiteral "8"; SLiteral "9"; SLiteral "a"; SLiteral "b"] c
  = bool_decide (c ∈ chars "89abAB").
Proof. by_cases c. Qed.

Lemma version_is_hex c : c ∈ chars "12345" → hex_digit c = true.
Proof. intros H. apply (bool_decide_eq_true_2 _) in H. revert H. by_cases c. Qed.

Lemma variant_is_hex c : c ∈ chars "89abAB" → hex_digit c = true.
Proof. intros H. apply (bool_decide_eq_true_2 _) in H. revert H. by_cases c. Qed.

Ltac rep g :=
  apply run_MaxRepeat; eexists g, _; split; [reflexivity|];
  split; [lia|]; split; [simpl; lia|]; split; [done|].
Ltac lit lem :=
  apply run_Literal; eexists _, _; split; [reflexivity|]; split; [by apply lem|].
Ltac cls :=
  apply run_In; eexists _, _; split; [reflexivity|]; split; [done|].

(** What [UUID_PATTERN] matches at the start of a subject: a canonical
    UUID, then whatever [$] allows. *)
Lemma uuid_language s :
  is_Some (run true (nodes UUID_PATTERN) 0 s) ↔
  ∃ u tail, s = u +:+ tail ∧ canonical_uuid u ∧ at_end tail = true.
Proof.
  unfold UUID_PATTERN, nodes. split.
  - intros H. apply run_AtBeginning in H.
    apply run_MaxRepeat in H as (g1 & r1 & -> & Hl1 & Hh1 & A1 & H).
    apply run_Literal in H as (? & r2 & -> & ->%hyphen_ignorecase & H).
    apply run_MaxRepeat in H as (g2 & r3 & -> & Hl2 & Hh2 & A2 & H).
    apply run_Literal in H as (? & r4 & -> & ->%hyphen_ignorecase & H).
    apply run_In in H as (v & r5 & -> & Hv & H).
    apply run_MaxRepeat in H as (g3 & r6 & -> & Hl3 & Hh3 & A3 & H).
    apply run_Literal in H as (? & r7 & -> & ->%hyphen_ignorecase & H).
    apply run_In in H as (w & r8 & -> & Hw & H).
    apply run_MaxRepeat in H as (g4 & r9 & -> & Hl4 & Hh4 & A4 & H).
    apply run_Literal in H as (? & r10 & -> & ->%hyphen_ignorecase & H).
    apply run_MaxRepeat in H as (g5 & tail & -> & Hl5 & Hh5 & A5 & H).
    apply run_AtEnd in H.
    rewrite version_set in Hv. apply bool_decide_eq_true in Hv.
    rewrite variant_set in Hw. apply bool_decide_eq_true in Hw.
    rewrite (forallb_eq _ hex_digit) in A1, A2, A3, A4, A5 by apply hex_set_ignorecase.
    simpl in Hh1, Hh2, Hh3, Hh4, Hh5.
    exists (g1 +:+ "-" +:+ g2 +:+ "-" +:+ String v g3 +:+ "-" +:+ String w g4 +:+ "-" +:+ g5), tail.
    split; [|split; [|done]].
    { repeat (rewrite !app_assoc_str; simpl). done. }
    exists g1, g2, (String v g3), (String w g4), g5.
    unfold hex_group, nibble, chars. simpl.
    rewrite A1, A2, A3, A4, A5, (version_is_hex v Hv), (variant_is_hex w Hw).
    repeat split; eauto; lia.
  - intros (u & tail & -> & C & Hend).
    destruct C as (g1 & g2 & g3 & g4 & g5 & -> & [L1 A1] & [L2 A2] & [L3 A3] & [L4 A4]
                   & [L5 A5] & (v & g3' & -> & Hv) & (w & g4' & -> & Hw)).
    unfold chars in *. simpl in L3, L4, A3, A4.
    apply andb_prop in A3 as [_ A3]. apply andb_prop in A4 as [_ A4].
    rewrite <- (forallb_eq _ hex_digit _ hex_set_ignorecase) in A1.
    rewrite <- (forallb_eq _ hex_digit _ hex_set_ignorecase) in A2.
    rewrite <- (forallb_eq _ hex_digit _ hex_set_ignorecase) in A3.
    rewrite <- (forallb_eq _ hex_digit _ hex_set_ignorecase) in A4.
    rewrite <- (forallb_eq _ hex_digit _ hex_set_ignorecase) in A5.
    apply (bool_decide_eq_true_2 _) in Hv, Hw.
    fold (chars "12345") in Hv. fold (chars "89abAB") in Hw.
    rewrite <- version_set in Hv. rewrite <- variant_set in Hw.
    repeat (rewrite !app_assoc_str; cbn [String.append]).
    apply run_AtBeginning.
    rep g1. lit hyphen_ignorecase. rep g2. lit hyphen_ignorecase. cls. rep g3'.
    lit hyphen_ignorecase. cls. rep g4'. lit hyphen_ignorecase. rep g5.
    by apply run_AtEnd.
Qed.

Lemma local_set c :
  in_set false
    [SRange "a" "z"; SRange "A" "Z"; SRange "0" "9"; SLiteral ".";
     SLiteral "_"; SLiteral "%"; SLiteral "+"; SLiteral "-"] c = local_char c.
Proof. by_cases c. Qed.

Lemma domain_set c :
  in_set false
    [SRange "a" "z"; SRange "A" "Z"; SRange "0" "9"; SLiteral "."; SLiteral "-"] c
  = domain_char c.
Proof. by_cases c. Qed.

Lemma letter_set c : in_set false [SRange "a" "z"; SRange "A" "Z"] c = letter c.
Proof. by_cases c. Qed.

Lemma same_char_exact d c : same_char false d c = true ↔ c = d.
Proof. apply bool_decide_eq_true. Qed.

(** What the e-mail pattern matches at the start of a subject: an
    address of the grammar, then whatever [$] allows. *)
Lemma email_language s :
  is_Some (run false (nodes EMAIL_PATTERN) 0 s) ↔
  ∃ e tail, s = e +:+ tail ∧ email_address e ∧ at_end tail = true.
Proof.
  unfold EMAIL_PATTERN, nodes. split.
  - intros H. apply run_AtBeginning in H.
    apply run_MaxRepeat in H as (g1 & r1 & -> & Hl1 & _ & A1 & H).
    apply run_Literal in H as (? & r2 & -> & ->%same_char_exact & H).
    apply run_MaxRepeat in H as (g2 & r3 & -> & Hl2 & _ & A2 & H).
    apply run_Literal in H as (? & r4 & -> & ->%same_char_exact & H).
    apply run_MaxRepeat in H as (g3 & tail & -> & Hl3 & _ & A3 & H).
    apply run_AtEnd in H.
    rewrite (forallb_eq _ local_char) in A1 by apply local_set.
    rewrite (forallb_eq _ domain_char) in A2 by apply domain_set.
    rewrite (forallb_eq _ letter) in A3 by apply letter_set.
    exists (g1 +:+ "@" +:+ g2 +:+ "." +:+ g3), tail.
    split; [|split; [|done]].
    { repeat (rewrite !app_assoc_str; simpl). done. }
    by exists g1, g2, g3.
  - intros (e & tail & -> & C & Hend).
    destruct C as (g1 & g2 & g3 & -> & L1 & A1 & L2 & A2 & L3 & A3).
    unfold chars in *.
    rewrite <- (forallb_eq _ local_char _ local_set) in A1.
    rewrite <- (forallb_eq _ domain_char _ domain_set) in A2.
    rewrite <- (forallb_eq _ letter _ letter_set) in A3.
    repeat (rewrite !app_assoc_str; cbn [String.append]).
    apply run_AtBeginning.
    rep g1. lit same_char_exact. rep g2. lit same_char_exact. rep g3.
    by apply run_AtEnd.
Qed.

End Languages.

(** ** The format predicates on strings *)

Section FormatPredicates.
Import Re Grammar ValidationUtils.

Lemma tail_cases (P : string → Prop) s :
  (∃ u tail, s = u +:+ tail ∧ P u ∧ at_end tail = true) ↔
  P s ∨ ∃ u, s = u +:+ nl ∧ P u.
Proof.
  split.
  - intros (u & tail & -> & Hu & [->| ->]%at_end_iff).
    + left. by rewrite app_nil_r_str.
    + right. by exists u.
  - intros [H|(u & -> & H)].
    + exists s, "". by rewrite app_nil_r_str.
    + by exists u, nl.
Qed.

(** On a string, [is_valid_uuid] returns, and it returns true exactly on
    a canonical UUID and on a canonical UUID followed by one newline. *)
Lemma is_valid_uuid_str s :
  ∃ b, is_valid_uuid (VStr s) = Return b ∧
       (b = true ↔ canonical_uuid s ∨ ∃ u, s = u +:+ nl ∧ canonical_uuid u).
Proof.
  eexists. split; [reflexivity|].
  by rewrite match_str_Some, uuid_language, tail_cases.
Qed.

(** The same for [is_valid_email] and the address grammar. *)
Lemma is_valid_email_str s :
  ∃ b, is_valid_email (VStr s) = Return b ∧
       (b = true ↔ email_address s ∨ ∃ e, s = e +:+ nl ∧ email_address e).
Proof.
  eexists. split; [reflexivity|].
  by rewrite match_str_Some, email_language, tail_cases.
Qed.

Lemma canonical_uuid_length s : canonical_uuid s → String.length s = 36.
Proof.
  intros (g1 & g2 & g3 & g4 & g5 & -> & [L1 _] & [L2 _] & [L3 _] & [L4 _] & [L5 _] & _).
  rewrite !length_app_str. simpl. lia.
Qed.

Lemma chars_last_newline u : newline ∈ chars (u +:+ nl).
Proof. rewrite chars_app. apply elem_of_app. right. simpl. left. Qed.

Lemma email_address_single_line s : email_address s → single_line s.
Proof.
  intros (g1 & g2 & g3 & -> & _ & A1 & _ & A2 & _ & A3).
  unfold single_line. rewrite !chars_app. simpl.
  repeat (rewrite elem_of_app || rewrite elem_of_cons).
  assert (Hno : ∀ (f : ascii → bool) l, f newline = false → forallb f l = true → newline ∉ l).
  { intros f l Hf Hall Hin. rewrite forallb_forall in Hall.
    apply list_elem_of_In, Hall in Hin. congruence. }
  intros [H|[[=]|[H|[[=]|H]]]]; (eapply Hno in H; [done| |eassumption]); done.
Qed.

End FormatPredicates.

Section FormatClaims.
Import Re Grammar ValidationUtils.

Lemma sample_uuid_canonical : canonical_uuid sample_uuid.
Proof.
  exists "550e8400", "e29b", "41d4", "a716", "446655440000".
  repeat split; try reflexivity.
  - exists "4"%char, "1d4". split; [done|]. by apply (bool_decide_unpack _).
  - exists "a"%char, "716". split; [done|]. by apply (bool_decide_unpack _).
Qed.

Lemma sample_email_address : email_address sample_email.
Proof. exists "a", "b", "co". repeat split; simpl; try reflexivity; lia. Qed.

Example is_valid_uuid_sample : is_valid_uuid (VStr sample_uuid) = Return true.
Proof. reflexivity. Qed.

Example is_valid_uuid_upper_case :
  is_valid_uuid (VStr "550E8400-E29B-41D4-A716-446655440000") = Return true.
Proof. reflexivity. Qed.

Example is_valid_uuid_not_a_uuid : is_valid_uuid (VStr "not-a-uuid") = Return false.
Proof. reflexivity. Qed.

Example is_valid_uuid_version_6 :
  is_valid_uuid (VStr "550e8400-e29b-61d4-a716-446655440000") = Return false.
Proof. reflexivity. Qed.

Example is_valid_email_sample : is_valid_email (VStr sample_email) = Return true.
Proof. reflexivity. Qed.

Example is_valid_email_no_tld : is_valid_email (VStr "a@b") = Return false.
Proof. reflexivity. Qed.

Example is_valid_email_space : is_valid_email (VStr "a b@c.com") = Return false.
Proof. reflexivity. Qed.

(** C6: [is_valid_uuid] is meant to return true exactly on the canonical
    UUID grammar; on the sample UUID followed by a newline it returns
    true although that string is not of the grammar (it has 37
    characters). *)
Theorem is_valid_uuid_trailing_newline :
  is_valid_uuid (VStr (sample_uuid +:+ nl)) = Return true ∧
  ¬ canonical_uuid (sample_uuid +:+ nl).
Proof.
  split; [reflexivity|].
  intros H%canonical_uuid_length. vm_compute in H. discriminate.
Qed.

(** C9: there is a canonical UUID and there is an address of the e-mail
    grammar such that the value followed by one newline is accepted by
    [is_valid_uuid], respectively [is_valid_email], although it is not of
    the grammar and not a single line: [$] holds just before a final
    newline. *)
Theorem dollar_accepts_final_newline :
  at_end nl = true ∧
  ∃ u e,
    canonical_uuid u ∧ ¬ canonical_uuid (u +:+ nl) ∧
    is_valid_uuid (VStr (u +:+ nl)) = Return true ∧
    email_address e ∧ ¬ email_address (e +:+ nl) ∧ ¬ single_line (e +:+ nl) ∧
    is_valid_email (VStr (e +:+ nl)) = Return true.
Proof.
  split; [reflexivity|]. exists sample_uuid, sample_email.
  split; [apply sample_uuid_canonical|].
  split; [intros H%canonical_uuid_length; vm_compute in H; discriminate|].
  split; [reflexivity|].
  split; [apply sample_email_address|].
  split; [intros H%email_address_single_line; apply H, chars_last_newline|].
  split; [intros H; apply H, chars_last_newline | reflexivity].
Qed.

(** C10: on a value that is not a [str], [is_valid_uuid] and
    [is_valid_email] raise a [TypeError]; they do not return false. *)
Theorem format_predicates_raise_on_non_str (v : pyval) :
  is_str v = false →
  raises (is_valid_uuid v) TypeError ∧ raises (is_valid_email v) TypeError ∧
  is_valid_uuid v ≠ Return false ∧ is_valid_email v ≠ Return false.
Proof. destruct v; simpl; try discriminate; intros _; repeat split; discriminate. Qed.

Lemma format_predicates_raise_on_non_str_witness :
  is_str VNone = false ∧
  (raises (is_valid_uuid VNone) TypeError ∧ raises (is_valid_email VNone) TypeError ∧
   is_valid_uuid VNone ≠ Return false ∧ is_valid_email VNone ≠ Return false).
Proof.
  split; [reflexivity | apply (format_predicates_raise_on_non_str VNone); reflexivity].
Defined.

End FormatClaims.

(** ** [is_valid_date_string] *)

Section DateString.
Import ValidationUtils.
Context {datetime : Type} (fromisoformat : string → outcome datetime).

(** C1: [is_valid_date_string] is meant to return false on a value that
    is not a string; on [None] and on an integer the lookup of [replace]
    raises an [AttributeError], which the [except (ValueError, TypeError)]
    clause lets through. *)
Theorem is_valid_date_string_non_str_raises :
  raises (is_valid_date_string fromisoformat VNone) AttributeError ∧
  (∀ z, raises (is_valid_date_string fromisoformat (VInt z)) AttributeError) ∧
  is_valid_date_string fromisoformat VNone ≠ Return false.
Proof. repeat split; discriminate. Qed.

(** [bytes] has a [replace], which rejects the [str] arguments with a
    [TypeError]: that one is caught. *)
Lemma is_valid_date_string_bytes b :
  is_valid_date_string fromisoformat (VBytes b) = Return false.
Proof. reflexivity. Qed.

(** On a string the result is whether the parser accepts the string with
    every [Z] replaced by [+00:00]; the parser fails with [ValueError]
    only. *)
Lemma is_valid_date_string_str s :
  (∀ t e, fromisoformat t = Raise e → exn_type e = ValueError) →
  is_valid_date_string fromisoformat (VStr s)
  = Return (returns (fromisoformat (str_replace "Z" "+00:00" s))).
Proof.
  intros Hparse. unfold is_valid_date_string. simpl.
  destruct (fromisoformat _) as [d|e] eqn:E; simpl; [done|].
  unfold except_, isinstance. simpl. by rewrite (Hparse _ _ E).
Qed.

Example str_replace_sample :
  str_replace "Z" "+00:00" "2024-01-01T00:00:00Z" = "2024-01-01T00:00:00+00:00".
Proof. reflexivity. Qed.

(** The two examples of the specification, given the parser's verdict on
    the text it is handed. *)
Example is_valid_date_string_utc d :
  fromisoformat "2024-01-01T00:00:00+00:00" = Return d →
  is_valid_date_string fromisoformat (VStr "2024-01-01T00:00:00Z") = Return true.
Proof. intros H. unfold is_valid_date_string. simpl. by rewrite H. Qed.

Example is_valid_date_string_month_13 msg :
  fromisoformat "2024-13-01" = Raise (Exn ValueError msg) →
  is_valid_date_string fromisoformat (VStr "2024-13-01") = Return false.
Proof. intros H. unfold is_valid_date_string. simpl. by rewrite H. Qed.

End DateString.

(** ** The database client *)


Ltac driver_cases :=
  repeat match goal with
    | |- context [create_engine ?D ?u ?w] =>
        destruct (create_engine D u w) as [[?|?] ?] eqn:?; simpl
    | |- context [connect ?D ?e ?w] =>
        destruct (connect D e w) as [[?|?] ?] eqn:?; simpl
    | |- context [execute ?D ?c ?q ?p ?w] =>
        destruct (execute D c q p w) as [[?|?] ?] eqn:?; simpl
    | |- context [commit ?D ?c ?w] =>
        destruct (commit D c w) as [[[]|?] ?] eqn:?; simpl
    | |- context [close ?D ?c ?w] =>
        destruct (close D c w) as [[[]|?] ?] eqn:?; simpl
    end.

Ltac trace_eq :=
  simpl; rewrite <- ?app_assoc; first [reflexivity | symmetry; apply app_nil_r].

Section HealthCheck.
Context {D : Driver}.
Import DatabaseClient.
#[local] Arguments String.append : simpl never.

(** C2: on a client, [health_check] returns a boolean and never raises.
    It returns true exactly when no driver call of the probe failed, and
    then [SELECT 1] was executed; when it returns false the failure was
    logged at error level.  Where the connection cannot be had,
    [health_check] returns false and [execute_query] raises. *)
Theorem health_check_total (st : state D) (self : loc) (c : client D) :
  heap st !! self = Some c →
  (∃ b st' evs,
    health_check self st = (Return b, st') ∧ trace st' = trace st ++ evs ∧
    (b = true ↔ failures evs = []) ∧
    (b = true → ∃ conn r, Execute conn "SELECT 1" None (Return r) ∈ evs) ∧
    (b = false → ∃ e, last (failures evs) = Some e ∧
       last evs = Some (error_record ("Database health check failed: " +:+ exn_str e) []))) ∧
  (∀ e st1, connection self st = (Raise e, st1) →
     (health_check self st).1 = Return false ∧
     ∀ query params, (execute_query self query params st).1 = Raise e).
Proof.
  intros Hc. split.
  - unfold health_check, try_, with_, connection, engine, exit_, bind, load, call, store, ret.
    rewrite Hc. simpl.
    destruct (_engine c) as [h|]; simpl; driver_cases;
      (eexists _, _, _; split; [reflexivity|]; split; [trace_eq|]);
      simpl; repeat split; try done; intros _;
      solve [ eexists _, _; rewrite !elem_of_cons; eauto
            | eexists; split; reflexivity ].
  - intros e st1 He. unfold health_check, execute_query, try_, with_, bind.
    rewrite He. simpl. done.
Qed.

End HealthCheck.

Section ExecuteQuery.
Context {D : Driver}.
Import DatabaseClient.
#[local] Arguments String.append : simpl never.

(** C3: on a client, [execute_query] sends the statement once.  When it
    returns, no driver call failed, nothing was logged, and the run ends
    with the statement, its commit and the release of the connection; the
    value returned is the result of the statement.  When a driver call
    failed it raises that failure, after one error record that carries the
    failure, the query and the parameters.  A statement that succeeded is
    always followed at once by a commit. *)
Theorem execute_query_commits_or_raises (st : state D) (self : loc) (c : client D)
    (query : string) (params : option pydict) :
  heap st !! self = Some c →
  ∃ r st' evs,
    execute_query self query params st = (r, st') ∧ trace st' = trace st ++ evs ∧
    committed evs ∧ length (omap executed evs) ≤ 1 ∧
    (returns r = true ↔ failures evs = []) ∧
    match r with
    | Return result =>
        omap logged evs = [] ∧
        ∃ pre conn,
          evs = pre ++ [Execute conn query (Some (or_empty params)) (Return result);
                        Commit conn (Return tt); Close conn (Return tt)]
    | Raise e =>
        last (failures evs) = Some e ∧
        ∃ calls record,
          evs = calls ++ [Log record] ∧ omap logged calls = [] ∧
          record = LogRecord ERROR ("Database query failed: " +:+ exn_str e)
                     [("query", VStr query); ("params", params_field params)]
    end.
Proof.
  intros Hc.
  unfold execute_query, try_, with_, connection, engine, exit_, bind, load, call, store, ret.
  rewrite Hc. simpl.
  destruct (_engine c) as [h|]; simpl; driver_cases;
    (eexists _, _, _; split; [reflexivity|]; split; [trace_eq|]);
    simpl; repeat split; try done; try lia;
    first [ by eexists [_], _ | by eexists [_; _], _ | by eexists [_; _; _], _
          | by eexists [_; _; _; _], _ | by eexists [_; _; _; _; _], _ ].
Qed.

End ExecuteQuery.

Section Construction.
Context {D : Driver}.
Import DatabaseClient.

Lemma fresh_loc_free (st : state D) : heap st !! fresh (dom (heap st)) = None.
Proof. apply not_elem_of_dom, is_fresh. Qed.

Lemma new_truthy (st : state D) (arg : option string) (s : string) :
  s ≠ "" → or_ arg (getenv "DATABASE_URL") st = (Return (Some s), st) →
  new arg st = (Return (fresh (dom (heap st))),
                set_heap (<[fresh (dom (heap st)) := Client s None]> (heap st)) st).
Proof.
  intros Hs Hor. unfold new, __init__, fresh_loc, bind. rewrite Hor.
  apply String.eqb_neq in Hs. by rewrite Hs.
Qed.

Lemma new_falsy (st : state D) (arg : option string) (cs : option string) :
  truthy cs = false → or_ arg (getenv "DATABASE_URL") st = (Return cs, st) →
  new arg st = (Raise not_set, st).
Proof.
  intros Hcs Hor. unfold new, __init__, fresh_loc, bind. rewrite Hor.
  destruct cs as [s|]; [|done]. simpl in Hcs.
  by destruct (String.eqb s "").
Qed.

(** C4: with a non-empty connection string the construction returns a
    new client that holds it, with no engine yet; with no argument and
    no [DATABASE_URL] in the environment it raises the [ValueError] and
    leaves no object behind. *)
Theorem client_construction (st : state D) (s : string) :
  s ≠ "" →
  (∃ self st',
     new (Some s) st = (Return self, st') ∧ heap st !! self = None ∧
     heap st' = <[self := Client s None]> (heap st) ∧
     environ st' = environ st ∧ trace st' = trace st) ∧
  (environ st !! "DATABASE_URL" = None →
     new None st = (Raise not_set, st) ∧ exn_type not_set = ValueError).
Proof.
  intros Hs. split.
  - eexists _, _. split; [apply (new_truthy st (Some s) s Hs)|].
    + unfold or_. simpl. apply String.eqb_neq in Hs. by rewrite Hs.
    + split; [apply fresh_loc_free | done].
  - intros Henv. split; [|done].
    apply (new_falsy st None None); [done|].
    unfold or_, getenv. simpl. by rewrite Henv.
Qed.

(** C8: an empty connection string counts as none.  The construction
    then takes [DATABASE_URL]: a non-empty value becomes the connection
    string of the new client, and the [ValueError] is raised exactly when
    the variable is unset or empty. *)
Theorem empty_connection_string_falls_back (st : state D) :
  new (Some "") st = new None st ∧
  (∀ url, environ st !! "DATABASE_URL" = Some url → url ≠ "" →
     ∃ self st', new (Some "") st = (Return self, st') ∧
                 heap st' !! self = Some (Client url None)) ∧
  (truthy (environ st !! "DATABASE_URL") = false ↔
     new (Some "") st = (Raise not_set, st)).
Proof.
  split; [done|]. split.
  - intros url Henv Hurl. eexists _, _. split.
    + apply (new_truthy st (Some "") url Hurl).
      unfold or_, getenv. simpl. by rewrite Henv.
    + simpl. apply lookup_insert_eq.
  - split.
    + intros Hf. apply (new_falsy st (Some "") (environ st !! "DATABASE_URL") Hf). done.
    + destruct (environ st !! "DATABASE_URL") as [url|] eqn:Henv; [|done].
      destruct (String.eqb_spec url "") as [->|Hurl]; [done|].
      rewrite (new_truthy st (Some "") url Hurl); [done|].
      unfold or_, getenv. simpl. by rewrite Henv.
Qed.

End Construction.

Section ValidateModel.
Context {D : Driver} {Instance_ : Type}.
Import ValidationUtils.
#[local] Arguments String.append : simpl never.

(** C5: [validate_model] always returns a triple.  When the schema
    accepts the data the triple is (true, the instance, none) and nothing
    is logged.  When the schema raises a [ValidationError] one warning is
    logged and the triple is (false, none, a message that contains
    "Validation failed"); on any other exception one error record is
    logged instead, with a triple of the same shape. *)
Theorem validate_model_never_raises (model_class : pydict → M D Instance_)
    (data : pydict) (st : state D) :
  ∃ ok inst msg st',
    validate_model model_class data st = (Return (ok, inst, msg), st') ∧
    match model_class data st with
    | (Return i, st0) => ok = true ∧ inst = Some i ∧ msg = None ∧ st' = st0
    | (Raise e, st0) =>
        ok = false ∧ inst = None ∧
        ∃ m lvl event,
          msg = Some m ∧
          trace st' = trace st0 ++
            [Log (LogRecord lvl event [("error", VStr m); ("data", VDict data)])] ∧
          if isinstance e [ValidationError]
          then lvl = WARNING ∧ event = "Model validation failed" ∧
               m = "Validation failed: " +:+ exn_str e ∧
               contains "Validation failed" m = true
          else lvl = ERROR ∧ event = "Unexpected validation error" ∧
               m = "Unexpected validation error: " +:+ exn_str e
    end.
Proof.
  unfold validate_model, try_, bind.
  destruct (model_class data st) as [[i|e] st0].
  - by eexists _, _, _, _.
  - cbn [dispatch]. unfold except_, except_Exception.
    destruct (isinstance e [ValidationError]) eqn:Hc; simpl;
      (eexists _, _, _, _; split; [reflexivity|]; split; [done|]; split; [done|]);
      eexists _, _, _; (split; [reflexivity|]); (split; [reflexivity|]).
    + repeat split.
    + done.
Qed.

End ValidateModel.



Section Memoisation.
Context {D : Driver}.
Import DatabaseClient.
#[local] Arguments String.append : simpl never.








End Memoisation.

(** ** Two callers at once *)

Section Race.
Context {D : Driver}.
Import DatabaseClient.

(** An access that no other thread runs into is the [engine] property:
    the same result, the same state. *)
Lemma schedule_single (self : loc) (pc : access) (st : state D) :
  schedule_step self ([pc], st) 0
  = ([(access_step self pc st).1], (access_step self pc st).2).
Proof.
  unfold schedule_step. cbn [fst snd lookup list_lookup].
  by destruct (access_step self pc st).
Qed.

Lemma access_alone (self : loc) (st : state D) :
  interleave self [0; 0; 0; 0] ([AtTest], st)
  = ([Finished (reported (engine self st).1)], (engine self st).2).
Proof.
  unfold interleave. cbn [fold_left]. unfold engine, bind.
  rewrite schedule_single. unfold access_step at 1 2. unfold load at 1 2 3.
  destruct (heap st !! self) as [c|] eqn:Hc; cbn [fst snd].
  - destruct (_engine c) as [h|] eqn:Hh.
    + rewrite schedule_single. unfold access_step at 1 2, load. rewrite Hc, Hh.
      cbn [fst snd]. rewrite !schedule_single. reflexivity.
    + rewrite schedule_single. unfold access_step at 1 2, load. rewrite Hc, Hh.
      unfold call. cbn beta.
      destruct (create_engine D (connection_string c) (db st)) as [[e|x] w];
        cbn [fst snd].
      * rewrite schedule_single. unfold access_step at 1 2, load, emit, store, set_heap.
        cbn [heap fst snd]. rewrite Hc. cbn [fst snd].
        rewrite schedule_single. unfold access_step, load. cbn [heap fst snd].
        rewrite lookup_insert_eq. reflexivity.
      * rewrite !schedule_single. reflexivity.
  - rewrite !schedule_single. unfold load. rewrite Hc. reflexivity.
Qed.

End Race.


(** ** The theorems at concrete processes *)

Section Witnesses.
Import DatabaseClient Scripted.

Lemma health_check_total_witness :
  heap (with_client sample_client [true; false]) !! 0 = Some sample_client ∧
  (∃ st1, connection 0 (with_client sample_client [true; false]) = (Raise refused, st1)) ∧
  ((∃ b st' evs,
      health_check 0 (with_client sample_client [true; false]) = (Return b, st') ∧
      trace st' = trace (with_client sample_client [true; false]) ++ evs ∧
      (b = true ↔ failures evs = []) ∧
      (b = true → ∃ conn r, Execute conn "SELECT 1" None (Return r) ∈ evs) ∧
      (b = false → ∃ e, last (failures evs) = Some e ∧
         last evs = Some (error_record ("Database health check failed: " +:+ exn_str e) []))) ∧
   (∀ e st1, connection 0 (with_client sample_client [true; false]) = (Raise e, st1) →
      (health_check 0 (with_client sample_client [true; false])).1 = Return false ∧
      ∀ query params,
        (execute_query 0 query params (with_client sample_client [true; false])).1
        = Raise e)).
Proof.
  split; [reflexivity|]. split; [eexists; reflexivity|].
  apply (health_check_total (with_client sample_client [true; false]) 0 sample_client).
  reflexivity.
Defined.

Lemma execute_query_commits_or_raises_witness :
  heap (with_client sample_client []) !! 0 = Some sample_client ∧
  ∃ r st' evs,
    execute_query 0 "UPDATE lots SET sold = :sold" (Some {[ "sold" := VBool true ]})
      (with_client sample_client []) = (r, st') ∧
    trace st' = trace (with_client sample_client []) ++ evs ∧
    committed evs ∧ length (omap executed evs) ≤ 1 ∧
    (returns r = true ↔ failures evs = []) ∧
    match r with
    | Return result =>
        omap logged evs = [] ∧
        ∃ pre conn,
          evs = pre ++ [Execute conn "UPDATE lots SET sold = :sold"
                          (Some (or_empty (Some {[ "sold" := VBool true ]})))
                          (Return result);
                        Commit conn (Return tt); Close conn (Return tt)]
    | Raise e =>
        last (failures evs) = Some e ∧
        ∃ calls record,
          evs = calls ++ [Log record] ∧ omap logged calls = [] ∧
          record = LogRecord ERROR ("Database query failed: " +:+ exn_str e)
                     [("query", VStr "UPDATE lots SET sold = :sold");
                      ("params", params_field (Some {[ "sold" := VBool true ]}))]
    end.
Proof.
  split; [reflexivity|].
  apply (execute_query_commits_or_raises (with_client sample_client []) 0 sample_client).
  reflexivity.
Defined.

Lemma client_construction_witness :
  "postgresql://localhost/app" ≠ "" ∧
  environ (process ∅ []) !! "DATABASE_URL" = None ∧
  (∃ self st',
     new (Some "postgresql://localhost/app") (process ∅ []) = (Return self, st') ∧
     heap (process ∅ []) !! self = None ∧
     heap st' = <[self := Client "postgresql://localhost/app" None]> (heap (process ∅ [])) ∧
     environ st' = environ (process ∅ []) ∧ trace st' = trace (process ∅ [])) ∧
  new None (process ∅ []) = (Raise not_set, process ∅ []) ∧
  exn_type not_set = ValueError.
Proof.
  assert (Hs : "postgresql://localhost/app" ≠ "") by discriminate.
  destruct (client_construction (process ∅ []) "postgresql://localhost/app" Hs) as [Hnew Hnone].
  split; [exact Hs|]. split; [reflexivity|]. split; [exact Hnew|].
  apply Hnone. reflexivity.
Defined.

Lemma empty_connection_string_falls_back_witness :
  environ (process {[ "DATABASE_URL" := "postgresql://env/app" ]} []) !! "DATABASE_URL"
    = Some "postgresql://env/app" ∧
  "postgresql://env/app" ≠ "" ∧
  truthy (environ (process ∅ []) !! "DATABASE_URL") = false ∧
  (∃ self st',
     new (Some "") (process {[ "DATABASE_URL" := "postgresql://env/app" ]} [])
       = (Return self, st') ∧
     heap st' !! self = Some (Client "postgresql://env/app" None)) ∧
  new (Some "") (process ∅ []) = (Raise not_set, process ∅ []).
Proof.
  assert (Hs : "postgresql://env/app" ≠ "") by discriminate.
  split; [reflexivity|]. split; [exact Hs|]. split; [reflexivity|]. split.
  - destruct (empty_connection_string_falls_back
                (process {[ "DATABASE_URL" := "postgresql://env/app" ]} []))
      as (_ & Hurl & _).
    exact (Hurl "postgresql://env/app" eq_refl Hs).
  - destruct (empty_connection_string_falls_back (process ∅ [])) as (_ & _ & [Hraise _]).
    apply Hraise. reflexivity.
Defined.


End Witnesses.

(** ** The testable properties of the specification, run *)

Section Runs.
Import DatabaseClient Scripted ValidationUtils.

(** A reachable database. *)
Example health_check_live :
  (health_check 0 (with_client sample_client [])).1 = Return true.
Proof. reflexivity. Qed.

(** An unreachable one: the connection is refused. *)
Example health_check_unreachable :
  (health_check 0 (with_client sample_client [true; false])).1 = Return false.
Proof. reflexivity. Qed.

Example execute_query_unreachable :
  (execute_query 0 "SELECT 1" None (with_client sample_client [true; false])).1
  = Raise refused ∧
  omap logged (trace (execute_query 0 "SELECT 1" None
                        (with_client sample_client [true; false])).2)
  = [LogRecord ERROR "Database query failed: connection refused"
       [("query", VStr "SELECT 1"); ("params", VNone)]].
Proof. split; reflexivity. Qed.

(** The engine is made by the second operation of the run, once. *)
Example sample_run_creates_once :
  omap created (trace (steps 0 sample_run (with_client sample_client [false])))
  = ["postgresql://localhost/app"] ∧
  omap connected (trace (steps 0 sample_run (with_client sample_client [false])))
  = ["postgresql://localhost/app"; "postgresql://localhost/app"].
Proof. split; reflexivity. Qed.

Example test_connection_refused :
  (DatabaseUtils.test_connection "postgresql://localhost/app" (process ∅ [true; false])).1
  = Return false.
Proof. reflexivity. Qed.

Example validate_model_accepts :
  (validate_model Person.model_class {[ "name" := VStr "Ada" ]} (process ∅ [])).1
  = Return (true, Some "Ada", None).
Proof. reflexivity. Qed.

Example validate_model_missing_field :
  ∃ m, (validate_model Person.model_class ∅ (process ∅ [])).1
       = Return (false, None, Some m) ∧ contains "Validation failed" m = true.
Proof. eexists. split; reflexivity. Qed.

End Runs.

(** * More of the library *)

(** ** [DatabaseUtils] *)

Section Utils.
Context {D : Driver}.
Import DatabaseClient DatabaseUtils.
#[local] Arguments String.append : simpl never.

(** X1: [get_connection_string] returns [DATABASE_URL] when it is set and not
    empty and raises the [ValueError] otherwise, and changes nothing.  A
    client made without an argument holds the string it returns, and the
    construction fails, with the same error, exactly when it fails. *)
Theorem get_connection_string_agrees (st : state D) :
  match get_connection_string st with
  | (Return s, st1) =>
      st1 = st ∧ s ≠ "" ∧ environ st !! "DATABASE_URL" = Some s ∧
      ∃ self st', new None st = (Return self, st') ∧
                  heap st' !! self = Some (Client s None)
  | (Raise e, st1) =>
      st1 = st ∧ e = not_set ∧ truthy (environ st !! "DATABASE_URL") = false ∧
      new None st = (Raise not_set, st)
  end.
Proof.
  unfold get_connection_string, getenv, bind.
  destruct (environ st !! "DATABASE_URL") as [url|] eqn:Henv.
  - destruct (String.eqb_spec url "") as [->|Hurl].
    + repeat split. apply (new_falsy st None (Some "")); [done|].
      unfold or_, getenv. simpl. by rewrite Henv.
    + repeat split; [done|]. eexists _, _. split.
      * apply (new_truthy st None url Hurl). unfold or_, getenv. simpl. by rewrite Henv.
      * simpl. apply lookup_insert_eq.
  - repeat split. apply (new_falsy st None None); [done|].
    unfold or_, getenv. simpl. by rewrite Henv.
Qed.

(** X2: with a non-empty connection string, [test_connection] returns a
    boolean and never raises.  It first asks for an engine for that very
    string, whatever clients exist already; it returns true exactly when
    no driver call failed; it leaves the environment and every client
    that existed as they were. *)
Theorem test_connection_probes (st : state D) (cs : string) :
  cs ≠ "" →
  ∃ b st' r rest,
    test_connection cs st = (Return b, st') ∧
    trace st' = trace st ++ CreateEngine cs r :: rest ∧
    omap created rest = [] ∧
    (b = true ↔ failures (CreateEngine cs r :: rest) = []) ∧
    environ st' = environ st ∧
    (∀ l c, heap st !! l = Some c → heap st' !! l = Some c).
Proof.
  intros Hcs.
  assert (Hframe : ∀ (c' : client D) l c,
            heap st !! l = Some c →
            <[fresh (dom (heap st)) := c']> (heap st) !! l = Some c).
  { intros c' l c Hl. rewrite lookup_insert_ne; [done|].
    intros <-. by rewrite fresh_loc_free in Hl. }
  unfold test_connection, try_, bind.
  rewrite (new_truthy st (Some cs) cs Hcs);
    [|unfold or_; simpl; apply String.eqb_neq in Hcs; by rewrite Hcs].
  unfold health_check, try_, with_, connection, engine, exit_, bind, load, call, store, ret.
  simpl. rewrite lookup_insert_eq. simpl. driver_cases;
    (eexists _, _, _, _; split; [reflexivity|]; split; [trace_eq|]);
    simpl; rewrite ?insert_insert_eq; repeat split; try done; eauto.
Qed.

(** X3: the empty string is no connection string of its own:
    [test_connection('')] probes the database of [DATABASE_URL], and
    where that is unset or empty it returns false at once, with no driver
    call and no log record. *)
Theorem test_connection_empty (st : state D) :
  match environ st !! "DATABASE_URL" with
  | Some url =>
      if String.eqb url "" then test_connection "" st = (Return false, st)
      else test_connection "" st = test_connection url st
  | None => test_connection "" st = (Return false, st)
  end.
Proof.
  unfold test_connection, try_, bind.
  destruct (environ st !! "DATABASE_URL") as [url|] eqn:Henv.
  - destruct (String.eqb_spec url "") as [->|Hurl].
    + rewrite (new_falsy st (Some "") (Some "")); [done..|].
      unfold or_, getenv. simpl. by rewrite Henv.
    + rewrite (new_truthy st (Some "") url Hurl), (new_truthy st (Some url) url Hurl);
        [done| |].
      * unfold or_. simpl. apply String.eqb_neq in Hurl. by rewrite Hurl.
      * unfold or_, getenv. simpl. by rewrite Henv.
  - rewrite (new_falsy st (Some "") None); [done..|].
    unfold or_, getenv. simpl. by rewrite Henv.
Qed.

End Utils.

(** ** Any use of the database interface *)

Section AnyUse.
Context {D : Driver}.
Import DatabaseClient DatabaseUtils.
#[local] Arguments String.append : simpl never.

Lemma new_cases (arg : option string) (st : state D) :
  (∃ s, s ≠ "" ∧
        new arg st = (Return (fresh (dom (heap st))),
                      set_heap (<[fresh (dom (heap st)) := Client s None]> (heap st)) st)) ∨
  new arg st = (Raise not_set, st).
Proof.
  destruct (or_ arg (getenv "DATABASE_URL") st) as [r st1] eqn:Hor.
  assert (∃ cs, r = Return cs ∧ st1 = st) as (cs & -> & ->).
  { unfold or_, getenv, ret in Hor. destruct (truthy arg); injection Hor as <- <-; eauto. }
  destruct cs as [s|]; [destruct (String.eqb_spec s "") as [->|Hs]|].
  - right. by apply (new_falsy st arg (Some "")).
  - left. exists s. split; [done|]. by apply new_truthy.
  - right. by apply (new_falsy st arg None).
Qed.

Lemma get_connection_string_pure (st : state D) : (get_connection_string st).2 = st.
Proof.
  unfold get_connection_string, getenv, bind. simpl.
  destruct (environ st !! "DATABASE_URL") as [s|]; [|done]. by destruct (String.eqb s "").
Qed.

End AnyUse.

(** Every path of one call of the interface. *)
Ltac client_cases st self :=
  let cl := fresh "cl" in
  let h := fresh "h" in
  destruct (heap st !! self) as [cl|] eqn:?; simpl;
  [destruct (_engine cl) as [h|] eqn:?; simpl; driver_cases|].

Ltac api_cases st a :=
  let Hnew := fresh "Hnew" in
  let arg := fresh "arg" in
  let self := fresh "self" in
  let query := fresh "query" in
  let params := fresh "params" in
  let cs := fresh "cs" in
  destruct a as [arg|self [|query params|]|cs|]; unfold api_step, step;
  [ destruct (new_cases arg st) as [(? & ? & Hnew)|Hnew]; rewrite Hnew; simpl
  | unfold DatabaseClient.engine, bind, load, call, store, ret;
    client_cases st self
  | unfold DatabaseClient.execute_query, try_, with_, DatabaseClient.connection,
      DatabaseClient.engine, DatabaseClient.exit_, bind, load, call, store, ret;
    client_cases st self
  | unfold DatabaseClient.health_check, try_, with_, DatabaseClient.connection,
      DatabaseClient.engine, DatabaseClient.exit_, bind, load, call, store, ret;
    client_cases st self
  | unfold DatabaseUtils.test_connection, try_, bind;
    destruct (new_cases (Some cs) st) as [(? & ? & Hnew)|Hnew]; rewrite Hnew; simpl;
    [ unfold DatabaseClient.health_check, try_, with_, DatabaseClient.connection,
        DatabaseClient.engine, DatabaseClient.exit_, bind, load, call, store, ret;
      simpl; rewrite lookup_insert_eq; simpl; driver_cases | ]
  | rewrite get_connection_string_pure ].

Section AnyUseFacts.
Context {D : Driver}.
Import DatabaseClient DatabaseUtils.
#[local] Arguments String.append : simpl never.

Lemma api_step_exits (st : state D) (a : api_call) :
  ∃ evs, trace (api_step st a) = trace st ++ evs ∧
         omap opened evs = omap exit_called evs.
Proof.
  api_cases st a; (eexists; split; [trace_eq|]); done.
Qed.

(** X4: whatever is called, in any order, and whatever fails in the
    statement or in the commit, the exit of every connection that was
    opened is called, once, in the order of opening, and of no other
    connection.  Whether the close it makes goes well is the driver's
    matter. *)
Theorem exit_called_for_every_connection (calls : list api_call) (st : state D) :
  ∃ evs, trace (api_run calls st) = trace st ++ evs ∧
         omap opened evs = omap exit_called evs.
Proof.
  revert st. induction calls as [|a calls IH]; intros st.
  - exists []. by rewrite app_nil_r.
  - destruct (api_step_exits st a) as (e1 & Ht1 & H1).
    destruct (IH (api_step st a)) as (e2 & Ht2 & H2).
    exists (e1 ++ e2). unfold api_run in *. simpl.
    rewrite Ht2, Ht1, app_assoc, !omap_app, H1, H2. done.
Qed.

Lemma api_step_frame (st : state D) (a : api_call) (l : loc) (c : client D) :
  heap st !! l = Some c → (∀ o, a ≠ Method l o) →
  heap (api_step st a) !! l = Some c ∧ environ (api_step st a) = environ st.
Proof.
  intros Hl Hne.
  assert (Hfresh : fresh (dom (heap st)) ≠ l)
    by (intros <-; by rewrite fresh_loc_free in Hl).
  api_cases st a; (split; [|done]); simpl;
    rewrite ?lookup_insert_ne; try done;
    intros ->; by eapply Hne.
Qed.

(** X5: a client is changed by its own methods only: after any calls of the
    interface none of which is a method of that client, it is as it was.
    The environment is read and never written. *)
Theorem client_untouched (calls : list api_call) (st : state D) (l : loc)
    (c : client D) :
  heap st !! l = Some c → l ∉ omap method_of calls →
  heap (api_run calls st) !! l = Some c ∧ environ (api_run calls st) = environ st.
Proof.
  revert st. induction calls as [|a calls IH]; intros st Hl Hne; [done|].
  destruct (api_step_frame st a l c Hl) as [Hl1 He1].
  { intros o ->. apply Hne. simpl. left. }
  destruct (IH (api_step st a) Hl1) as [Hl2 He2].
  { intros Hin. apply Hne. simpl. destruct (method_of a); [by right | done]. }
  unfold api_run in *. simpl. by rewrite He2, He1.
Qed.

Lemma api_step_configured (st : state D) (a : api_call) :
  clients_configured st →
  ∃ evs, trace (api_step st a) = trace st ++ evs ∧ Forall no_empty_url evs ∧
         clients_configured (api_step st a).
Proof.
  intros Hwf. unfold clients_configured in *.
  api_cases st a; (eexists; split; [trace_eq|]); simpl;
    (split; [repeat constructor; simpl; eauto|]);
    rewrite ?insert_insert_eq;
    try done; try (apply map_Forall_insert_2; [simpl; eauto | done]).
Qed.

(** X6: when every client holds a non-empty connection string, as the ones
    the constructor makes do, that stays so after any calls of the
    interface, and no engine is ever asked for an empty URL. *)
Theorem never_an_empty_url (calls : list api_call) (st : state D) :
  clients_configured st →
  ∃ evs, trace (api_run calls st) = trace st ++ evs ∧ Forall no_empty_url evs ∧
         clients_configured (api_run calls st).
Proof.
  revert st. induction calls as [|a calls IH]; intros st Hwf.
  - exists []. by rewrite app_nil_r.
  - destruct (api_step_configured st a Hwf) as (e1 & Ht1 & H1 & Hwf1).
    destruct (IH (api_step st a) Hwf1) as (e2 & Ht2 & H2 & Hwf2).
    exists (e1 ++ e2). unfold api_run in *. simpl.
    rewrite Ht2, Ht1, app_assoc. split; [done|]. split; [|done].
    by apply Forall_app.
Qed.

End AnyUseFacts.

(** ** What the two database operations send *)

Section Statements.
Context {D : Driver}.
Import DatabaseClient.
#[local] Arguments String.append : simpl never.

(** X7: in [execute_query] a commit is sent exactly on the connection the
    statement succeeded on: a statement that failed, or that was never
    sent, is not committed.  What is sent is the query, always with a
    dictionary of parameters. *)
Theorem commit_only_after_success (st : state D) (self : loc) (query : string)
    (params : option pydict) :
  ∃ evs,
    trace (execute_query self query params st).2 = trace st ++ evs ∧
    omap commit_on evs = omap statement_ok evs ∧
    Forall (λ x, x = (query, Some (or_empty params))) (omap sent evs).
Proof.
  unfold execute_query, try_, with_, connection, engine, exit_, bind, load, call, store, ret.
  client_cases st self; (eexists; split; [trace_eq|]); simpl;
    (split; [done|]); repeat constructor.
Qed.

(** X8: [health_check] only reads: it never commits, the only statement it
    sends is [SELECT 1], without parameters, and it logs at most one
    record. *)
Theorem health_check_read_only (st : state D) (self : loc) :
  ∃ evs,
    trace (health_check self st).2 = trace st ++ evs ∧
    omap commit_on evs = [] ∧
    Forall (λ x, x = ("SELECT 1", None)) (omap sent evs) ∧
    length (omap logged evs) ≤ 1.
Proof.
  unfold health_check, try_, with_, connection, engine, exit_, bind, load, call, store, ret.
  client_cases st self; (eexists; split; [trace_eq|]); simpl;
    (split; [done|]); (split; [repeat constructor | lia]).
Qed.

(** X9: no parameters and an empty dictionary of parameters are the same to
    the database: the outcome, the clients, the world behind the driver
    and the driver calls are the same; only the log record of a failure
    tells them apart. *)
Theorem params_none_or_empty (st : state D) (self : loc) (query : string) :
  (execute_query self query None st).1 = (execute_query self query (Some ∅) st).1 ∧
  heap (execute_query self query None st).2
    = heap (execute_query self query (Some ∅) st).2 ∧
  db (execute_query self query None st).2 = db (execute_query self query (Some ∅) st).2 ∧
  omap driver_call (trace (execute_query self query None st).2)
    = omap driver_call (trace (execute_query self query (Some ∅) st).2).
Proof.
  unfold execute_query, try_.
  assert (or_empty (Some ∅) = or_empty None) as -> by (unfold or_empty; by case_decide).
  destruct (with_ _ _ _ st) as [[r|e] st1]; simpl; [done|].
  rewrite !omap_app. done.
Qed.

End Statements.

(** ** The case of the subject under IGNORECASE *)

Section Case.
Import Re.
Variable f : ascii → ascii.
Hypothesis f_lower : ∀ c, lower (f c) = lower c.
Hypothesis f_newline : ∀ c, bool_decide (f c = newline) = bool_decide (c = newline).

Lemma in_set_case cs c : in_set true cs (f c) = in_set true cs c.
Proof using f_lower. unfold in_set. by rewrite f_lower. Qed.

Lemma same_char_case d c : same_char true d (f c) = same_char true d c.
Proof using f_lower. unfold same_char. by rewrite f_lower. Qed.

Lemma at_end_case s : at_end (map_chars f s) = at_end s.
Proof using f_newline. destruct s as [|c [|d s]]; simpl; auto. Qed.

Lemma repeat_one_case test k lo hi pos s :
  (∀ c, test (f c) = test c) →
  (∀ pos s, k pos (map_chars f s) = k pos s) →
  repeat_one test k lo hi pos (map_chars f s) = repeat_one test k lo hi pos s.
Proof.
  intros Ht Hk. revert lo hi pos. induction s as [|c s IH]; intros lo hi pos.
  - done.
  - cbn [map_chars repeat_one]. rewrite Ht, IH.
    change (String (f c) (map_chars f s)) with (map_chars f (String c s)).
    by rewrite Hk.
Qed.

(** With IGNORECASE the matcher does not see a change of case. *)
Lemma run_case p pos s : run true p pos (map_chars f s) = run true p pos s.
Proof using f_lower f_newline.
  revert pos s. induction p as [|n p IH]; intros pos s; [done|].
  destruct n as [| |d|cs|lo hi cs]; cbn [run].
  - by rewrite IH.
  - by rewrite at_end_case, IH.
  - destruct s as [|c s]; [done|]. cbn [map_chars]. by rewrite same_char_case, IH.
  - destruct s as [|c s]; [done|]. cbn [map_chars]. by rewrite in_set_case, IH.
  - apply repeat_one_case; [apply in_set_case | apply IH].
Qed.

End Case.

Section CaseOfUuid.
Import Re ValidationUtils.

Ltac by_cases c := destruct c as [[] [] [] [] [] [] [] []]; vm_compute; try done.

Lemma lower_lower c : lower (lower c) = lower c.
Proof. by_cases c. Qed.

Lemma lower_upper c : lower (upper c) = lower c.
Proof. by_cases c. Qed.

Lemma lower_newline c : bool_decide (lower c = newline) = bool_decide (c = newline).
Proof. by_cases c. Qed.

Lemma upper_newline c : bool_decide (upper c = newline) = bool_decide (c = newline).
Proof. by_cases c. Qed.

(** X12: [is_valid_uuid] does not depend on the case of the letters: putting
    the whole string in lower case, or in upper case, leaves the answer
    as it is. *)
Theorem is_valid_uuid_any_case (s : string) :
  is_valid_uuid (VStr (map_chars lower s)) = is_valid_uuid (VStr s) ∧
  is_valid_uuid (VStr (map_chars upper s)) = is_valid_uuid (VStr s).
Proof.
  unfold is_valid_uuid, match_, match_str. cbn [ignorecase UUID_PATTERN].
  rewrite (run_case lower lower_lower lower_newline).
  rewrite (run_case upper lower_upper upper_newline). done.
Qed.

End CaseOfUuid.

(** ** What an accepted address looks like *)

Section OneAt.
Import Re Grammar ValidationUtils.

Lemma count_none (f : ascii → bool) (l : list ascii) (x : ascii) :
  forallb f l = true → f x = false → count_occ ascii_dec l x = 0.
Proof.
  intros Hall Hx. apply count_occ_not_In. intros Hin.
  rewrite forallb_forall in Hall. apply Hall in Hin. congruence.
Qed.

Lemma email_address_one_at e :
  email_address e → count_occ ascii_dec (chars e) "@"%char = 1 ∧ 6 ≤ String.length e.
Proof.
  intros (g1 & g2 & g3 & -> & L1 & A1 & L2 & A2 & L3 & A3).
  rewrite !chars_app, !count_occ_app, !length_app_str.
  rewrite (count_none _ _ _ A1), (count_none _ _ _ A2), (count_none _ _ _ A3) by done.
  simpl. split; [done | lia].
Qed.

(** X13: a string [is_valid_email] accepts holds exactly one [@] and at least
    six characters. *)
Theorem is_valid_email_one_at (s : string) :
  is_valid_email (VStr s) = Return true →
  count_occ ascii_dec (chars s) "@"%char = 1 ∧ 6 ≤ String.length s.
Proof.
  intros H. destruct (is_valid_email_str s) as (b & Hb & Hiff).
  rewrite Hb in H. injection H as ->.
  destruct (proj1 Hiff eq_refl) as [He|(e & -> & He)].
  - by apply email_address_one_at.
  - destruct (email_address_one_at e He) as [H1 H6].
    rewrite chars_app, count_occ_app, length_app_str, H1. simpl. split; [done | lia].
Qed.

Lemma is_valid_email_one_at_witness :
  is_valid_email (VStr "a.b+c@mail.example.org") = Return true ∧
  count_occ ascii_dec (chars "a.b+c@mail.example.org") "@"%char = 1 ∧
  6 ≤ String.length "a.b+c@mail.example.org".
Proof.
  split; [reflexivity|].
  apply (is_valid_email_one_at "a.b+c@mail.example.org"). reflexivity.
Defined.

End OneAt.

(** ** What the two format predicates accept *)

Section Accepts.
Import Re Grammar ValidationUtils.

(** X10: [is_valid_uuid] returns true on a string exactly when the string is
    a canonical UUID, or a canonical UUID and one newline after it. *)
Theorem is_valid_uuid_accepts (s : string) :
  is_valid_uuid (VStr s) = Return true ↔
  canonical_uuid s ∨ ∃ u, s = u +:+ nl ∧ canonical_uuid u.
Proof.
  unfold is_valid_uuid, match_.
  rewrite <- tail_cases, <- uuid_language, <- (match_str_Some UUID_PATTERN).
  split; [by intros [= ->] | by intros ->].
Qed.

(** X11: [is_valid_email] returns true on a string exactly when the string is
    an address of the grammar, or such an address and one newline after
    it. *)
Theorem is_valid_email_accepts (s : string) :
  is_valid_email (VStr s) = Return true ↔
  email_address s ∨ ∃ e, s = e +:+ nl ∧ email_address e.
Proof.
  unfold is_valid_email, match_.
  rewrite <- tail_cases, <- email_language, <- (match_str_Some EMAIL_PATTERN).
  split; [by intros [= ->] | by intros ->].
Qed.

End Accepts.

(** ** More on [is_valid_date_string] *)

Section DateMore.
Import Grammar ValidationUtils.
Context {datetime : Type} (fromisoformat : string → outcome datetime).

(** X15: the text handed to the parser never holds a [Z]: every one, not only
    a last one, has become [+00:00], five characters more each; a string
    without [Z] is handed over as it is. *)
Theorem every_Z_is_replaced (s : string) :
  ("Z"%char ∉ chars (str_replace "Z" "+00:00" s)) ∧
  (String.length (str_replace "Z" "+00:00" s)
   = String.length s + 5 * count_occ ascii_dec (chars s) "Z"%char) ∧
  ("Z"%char ∉ chars s → str_replace "Z" "+00:00" s = s).
Proof.
  induction s as [|c s (IH1 & IH2 & IH3)]; [repeat split; by intros ?%elem_of_nil|].
  cbn [str_replace]. case_bool_decide as Hc.
  - subst c. rewrite chars_app, length_app_str, IH2. repeat split.
    + rewrite elem_of_app. intros [Hin|Hin]; [|done].
      simpl in Hin. repeat (apply elem_of_cons in Hin as [[=]|Hin]).
      by apply elem_of_nil in Hin.
    + simpl. lia.
    + intros Hno. exfalso. apply Hno. simpl. left.
  - repeat split.
    + simpl. intros [Heq|Hin]%elem_of_cons; [by subst | done].
    + simpl. rewrite IH2. destruct (ascii_dec c "Z"); [done | lia].
    + intros Hno. rewrite IH3; [done|]. intros Hin. apply Hno. simpl. by right.
Qed.

(** X14: when the parser fails by [ValueError] only, [is_valid_date_string]
    returns a boolean exactly on a [str] and on [bytes]: on a [str],
    whether the parser accepts the text with every [Z] replaced; on
    [bytes], false.  On every other value it raises an
    [AttributeError]. *)
Theorem is_valid_date_string_by_type (v : pyval) :
  (∀ t e, fromisoformat t = Raise e → exn_type e = ValueError) →
  match v with
  | VStr s =>
      is_valid_date_string fromisoformat v
      = Return (returns (fromisoformat (str_replace "Z" "+00:00" s)))
  | VBytes _ => is_valid_date_string fromisoformat v = Return false
  | _ => raises (is_valid_date_string fromisoformat v) AttributeError
  end.
Proof.
  intros Hparse. destruct v; try reflexivity.
  by apply is_valid_date_string_str.
Qed.

End DateMore.

Section DateWitnesses.
Import ValidationUtils.

Lemma fromisoformat_double_fails_by_ValueError :
  ∀ t e, Iso.fromisoformat t = Raise e → exn_type e = ValueError.
Proof.
  intros t e. unfold Iso.fromisoformat.
  destruct (String.eqb t _); [discriminate|]. by intros [= <-].
Defined.

Lemma is_valid_date_string_by_type_witness :
  (∀ t e, Iso.fromisoformat t = Raise e → exn_type e = ValueError) ∧
  is_valid_date_string Iso.fromisoformat (VStr "2024-01-01T00:00:00Z")
  = Return (returns (Iso.fromisoformat
                       (str_replace "Z" "+00:00" "2024-01-01T00:00:00Z"))).
Proof.
  split; [exact fromisoformat_double_fails_by_ValueError|].
  apply (is_valid_date_string_by_type Iso.fromisoformat (VStr "2024-01-01T00:00:00Z")).
  exact fromisoformat_double_fails_by_ValueError.
Defined.

(** The double accepts the sample once its [Z] is replaced, and no text
    that still ends in [Z]. *)
Example is_valid_date_string_double :
  is_valid_date_string Iso.fromisoformat (VStr "2024-01-01T00:00:00Z") = Return true ∧
  is_valid_date_string Iso.fromisoformat (VStr "2024-13-01") = Return false.
Proof. split; reflexivity. Qed.

End DateWitnesses.

(** ** [TelemetryUtils.log_error] *)

Section LogError.
Context {D : Driver} (logger_error : string → list (string * pyval) → M D unit).
Import TelemetryUtils.
#[local] Arguments String.append : simpl never.

Lemma has_key_false (m : pydict) (k : string) : has_key m k = false ↔ m !! k = None.
Proof.
  unfold has_key. rewrite bool_decide_eq_false, <- eq_None_not_Some. done.
Qed.

(** X16: whatever the logger does with a record: when the context has a
    key [error] or [error_type], [log_error] raises a [TypeError] before
    the logger is entered, so the state is as it was and the error it was
    given is not reported.  When the context has neither key,
    [log_error] is one call of the logger's [error] with the event
    [Error occurred] and, as keywords, the entries of the context and the
    text and the class name of the error, each key once; it returns or
    raises as that call does. *)
Theorem log_error_keywords (error : exn) (context : option pydict) (st : state D) :
  (is_Some (DatabaseClient.or_empty context !! "error") ∨
   is_Some (DatabaseClient.or_empty context !! "error_type") →
     raises (log_error logger_error error context st).1 TypeError ∧
     (log_error logger_error error context st).2 = st) ∧
  (DatabaseClient.or_empty context !! "error" = None →
   DatabaseClient.or_empty context !! "error_type" = None →
     ∃ fields,
       log_error logger_error error context st
         = logger_error "Error occurred" fields st ∧
       NoDup fields.*1 ∧
       (list_to_map fields : pydict)
         = <["error" := VStr (exn_str error)]>
             (<["error_type" := VStr (class_name (exn_type error))]>
                (DatabaseClient.or_empty context))).
Proof.
  unfold log_error, call_keywords. cbn [fmap list_fmap fst].
  set (ctx := DatabaseClient.or_empty context).
  destruct (find (has_key ctx) ["error"; "error_type"]) as [k|] eqn:Hexp.
  - apply find_some in Hexp as [Hin Hk]. split; [done|].
    intros H1 H2. exfalso.
    assert (ctx !! k = None) as Hnone
      by (destruct Hin as [<-|[<-|[]]]; done).
    apply has_key_false in Hnone. congruence.
  - assert (H1 : ctx !! "error" = None).
    { apply has_key_false, (find_none _ _ Hexp). by left. }
    assert (H2 : ctx !! "error_type" = None).
    { apply has_key_false, (find_none _ _ Hexp). right. by left. }
    split.
    { rewrite H1, H2. by intros [[? [=]]|[? [=]]]. }
    intros _ _. eexists. split; [reflexivity|]. split.
    + cbn [fmap list_fmap fst app].
      assert (Hnot : ∀ k, ctx !! k = None → k ∉ (map_to_list ctx).*1).
      { intros k Hk Hin. apply list_elem_of_fmap in Hin as ([k' v] & -> & Hin).
        apply elem_of_map_to_list in Hin. simpl in Hk. congruence. }
      repeat constructor.
      * intros [[=]|Hin]%elem_of_cons. by apply (Hnot "error").
      * by apply Hnot.
      * apply NoDup_fst_map_to_list.
    + cbn [app list_to_map foldr uncurry]. simpl. by rewrite list_to_map_to_list.
Qed.

End LogError.

(** ** The theorems above at concrete processes *)

Section MoreWitnesses.
Import DatabaseClient DatabaseUtils Scripted.

Lemma test_connection_probes_witness :
  "postgresql://localhost/app" ≠ "" ∧
  ∃ b st' r rest,
    test_connection "postgresql://localhost/app" (with_client sample_client [true; false])
      = (Return b, st') ∧
    trace st' = trace (with_client sample_client [true; false])
                ++ CreateEngine "postgresql://localhost/app" r :: rest ∧
    omap created rest = [] ∧
    (b = true ↔ failures (CreateEngine "postgresql://localhost/app" r :: rest) = []) ∧
    environ st' = environ (with_client sample_client [true; false]) ∧
    (∀ l c, heap (with_client sample_client [true; false]) !! l = Some c →
            heap st' !! l = Some c).
Proof.
  assert (Hs : "postgresql://localhost/app" ≠ "") by discriminate.
  split; [exact Hs|].
  exact (test_connection_probes (with_client sample_client [true; false])
           "postgresql://localhost/app" Hs).
Defined.

Lemma client_untouched_witness :
  heap (with_client sample_client [true; false]) !! 0 = Some sample_client ∧
  (0 ∉ omap method_of sample_calls) ∧
  heap (api_run sample_calls (with_client sample_client [true; false])) !! 0
    = Some sample_client ∧
  environ (api_run sample_calls (with_client sample_client [true; false]))
    = environ (with_client sample_client [true; false]).
Proof.
  assert (Hno : 0 ∉ omap method_of sample_calls)
    by (apply (bool_decide_unpack _); reflexivity).
  split; [reflexivity|]. split; [exact Hno|].
  exact (client_untouched sample_calls (with_client sample_client [true; false]) 0
           sample_client eq_refl Hno).
Defined.

Lemma never_an_empty_url_witness :
  clients_configured (with_client sample_client [true; false]) ∧
  ∃ evs,
    trace (api_run sample_calls (with_client sample_client [true; false]))
      = trace (with_client sample_client [true; false]) ++ evs ∧
    Forall no_empty_url evs ∧
    clients_configured (api_run sample_calls (with_client sample_client [true; false])).
Proof.
  assert (Hwf : clients_configured (with_client sample_client [true; false])).
  { apply map_Forall_singleton. discriminate. }
  split; [exact Hwf|].
  exact (never_an_empty_url sample_calls (with_client sample_client [true; false]) Hwf).
Defined.

(** [log_error] over the logger of the library's own records, with a
    context that has an [error] key and with none. *)
Example log_error_collision :
  raises (TelemetryUtils.log_error logger.error refused
            (Some {[ "error" := VStr "disk full" ]}) (process ∅ [])).1 TypeError ∧
  (TelemetryUtils.log_error logger.error refused
     (Some {[ "error" := VStr "disk full" ]}) (process ∅ [])).2 = process ∅ [].
Proof. split; vm_compute; reflexivity. Qed.

Example log_error_plain :
  omap logged (trace (TelemetryUtils.log_error logger.error refused None
                        (process ∅ [])).2)
  = [LogRecord ERROR "Error occurred"
       [("error", VStr "connection refused"); ("error_type", VStr "OperationalError")]].
Proof. reflexivity. Qed.

(** The calls of [sample_calls] open three connections and call the exit
    of the three. *)
Example sample_calls_exits :
  omap opened (trace (api_run sample_calls (with_client sample_client [])))
  = [7; 7; 7] ∧
  omap exit_called (trace (api_run sample_calls (with_client sample_client [])))
  = [7; 7; 7].
Proof. split; reflexivity. Qed.

End MoreWitnesses.

